(** * Verification of the heuristic table extractor (pdf_table_extractor.py)

    A shallow embedding of [group_text_into_rows], [build_table_from_rows]
    and the per-page control flow of [extract_tables_from_pdf], followed by
    the properties of the specification that concern them.

    Modelling conventions.
    - A word returned by [page.extract_words()] is a Python dict.  The code
      only ever reads the keys 'text', 'x0', 'x1' and 'top', so a word is a
      record of four fields, each of which may be absent; reading an absent
      key raises [KeyError], as [obj[key]] does.
    - Coordinates are Python floats, read as the rationals they denote
      ([Q]).  Comparisons are exact, as they are on floats.  The division
      of line 44 and the subtraction of line 71 give the double nearest to
      the exact result ([to_double]: 53 bits, ties to even, gradual
      underflow).  There is no infinity and no NaN in the model: a result
      beyond the largest double is kept as the rational it rounds to, which
      compares with 10 as the infinity does, and a tolerance too large to
      be converted to a float is outside the model.  The tolerance is a
      Python [int], as the default 3 is.
    - A Python [str] is a [string]; a character is its code point below 256.
    - Exceptions are the [Raise] results of a small error monad; the first
      exception aborts the computation, nothing catches it in the source.
    - [export_tables_to_excel] and [main] are modelled by the calls they
      make to pandas and the lines they print; the file system, the pages
      of the opened PDF and [os.path.splitext] are parameters of [main]. *)

From Stdlib Require Import List ZArith QArith Qround Qabs Qpower Bool Lia Lqa.
From Stdlib Require Import Ascii String DecimalString DecimalNat FinFun.
From Stdlib Require Import Permutation Sorted.
Import ListNotations.

Local Open Scope Z_scope.
Local Open Scope Q_scope.
Local Open Scope list_scope.

(** ** Exceptions *)

(** The keys of the dicts of the program: field names and bucket keys. *)
Inductive dict_key : Type :=
| StrKey (s : string)
| IntKey (z : Z).

Inductive exn : Type :=
| KeyError (key : dict_key)
| ZeroDivisionError.

Inductive result (A : Type) : Type :=
| Ok (a : A)
| Raise (e : exn).

Arguments Ok {A} a.
Arguments Raise {A} e.

Definition bind {A B : Type} (m : result A) (k : A -> result B) : result B :=
  match m with
  | Ok a => k a
  | Raise e => Raise e
  end.

Notation "x <- m ;; k" := (bind m (fun x => k))
  (at level 61, m at next level, right associativity).

(** A [for] loop that collects one value per element; the first exception
    leaves the loop. *)
Fixpoint mapM {A B : Type} (f : A -> result B) (l : list A) : result (list B) :=
  match l with
  | [] => Ok []
  | x :: l' => y <- f x ;; ys <- mapM f l' ;; Ok (y :: ys)
  end.

(** ** Python strings *)

Module PyStr.

(** [str.isspace] on the code points below 256: TAB..CR, FS..US, SPACE,
    NEL and NBSP. *)
Definition isspace (c : ascii) : bool :=
  let n := N_of_ascii c in
  (((9 <=? n) && (n <=? 13)) || ((28 <=? n) && (n <=? 32))
   || (n =? 133) || (n =? 160))%N.

Fixpoint lstrip (s : string) : string :=
  match s with
  | EmptyString => EmptyString
  | String c s' => if isspace c then lstrip s' else s
  end.

Fixpoint rstrip (s : string) : string :=
  match s with
  | EmptyString => EmptyString
  | String c s' =>
      match rstrip s' with
      | EmptyString => if isspace c then EmptyString else String c EmptyString
      | r => String c r
      end
  end.

(** [s.strip()]: whitespace is removed at both ends. *)
Definition strip (s : string) : string := rstrip (lstrip s).

(** Truth value of a string: non-empty. *)
Definition truthy (s : string) : bool :=
  match s with EmptyString => false | String _ _ => true end.

(** No character of the string is whitespace. *)
Definition no_space (s : string) : bool :=
  forallb (fun c => negb (isspace c)) (list_ascii_of_string s).

(** [str(n)] for a non-negative integer. *)
Definition of_nat (n : nat) : string := NilEmpty.string_of_uint (Nat.to_uint n).

End PyStr.

(** ** Words (text objects) *)

Record token : Type := mk_token {
  text : option string;
  x0 : option Q;
  x1 : option Q;
  top : option Q
}.

(** [obj[key]] *)
Definition getitem {A : Type} (field : option A) (key : string) : result A :=
  match field with
  | Some v => Ok v
  | None => Raise (KeyError (StrKey key))
  end.

(** A word with all four keys present. *)
Definition word (s : string) (left right y : Q) : token :=
  {| text := Some s; x0 := Some left; x1 := Some right; top := Some y |}.

Definition complete (t : token) : Prop :=
  text t <> None /\ x0 t <> None /\ x1 t <> None /\ top t <> None.

(** ** Numbers *)

(** [round(q)] with one argument: the nearest integer, an exact half going
    to the even neighbour. *)
Definition py_round (q : Q) : Z :=
  let f := Qfloor q in
  match Qcompare (q - inject_Z f) (1 # 2) with
  | Lt => f
  | Gt => (f + 1)%Z
  | Eq => if Z.even f then f else (f + 1)%Z
  end.

(** [a > b] on numbers. *)
Definition Qgtb (a b : Q) : bool := negb (Qle_bool a b).

(** ** Floats *)

(** [floor (log2 a)] for a positive rational [a]: the difference [k] of the
    bit lengths of numerator and denominator is that number or one more. *)
Definition ilog2 (a : Q) : Z :=
  let k := (Z.log2 (Qnum a) - Z.log2 (Zpos (Qden a)))%Z in
  if Qle_bool (2 ^ k) a then k else (k - 1)%Z.

(** The unit in the last place of the doubles of the binade of [q]:
    [2 ^ (e - 52)] for [2 ^ e <= |q| < 2 ^ (e + 1)], the binades below
    [2 ^ -1022] sharing the unit [2 ^ -1074] of the subnormal numbers. *)
Definition ulp (q : Q) : Q := 2 ^ (Z.max (ilog2 (Qabs q)) (-1022) - 52).

(** The double nearest to a real number, ties going to the even
    significand: the number is rounded to a multiple of the unit in the
    last place of its binade. *)
Definition to_double (q : Q) : Q :=
  let r := Qred q in
  inject_Z (py_round (r / ulp r)) * ulp r.

Arguments to_double q : simpl never.

(** [float(z)], the conversion that [/] applies to an [int] operand. *)
Definition float_of_int (z : Z) : Q := to_double (inject_Z z).

(** [a - b] and [a / b] on floats. *)
Definition float_sub (a b : Q) : Q := to_double (a - b).
Definition float_div (a b : Q) : Q := to_double (a / b).

(** ** sorted() *)

Section PySorted.
Context {A : Type} (leb : A -> A -> bool).

(** [x] is placed before the first element that is not smaller than it,
    so that it stays in front of the equal elements that followed it in
    the input: the sort is stable. *)
Fixpoint insert_sorted (x : A) (l : list A) : list A :=
  match l with
  | [] => [x]
  | y :: l' => if leb x y then x :: l else y :: insert_sorted x l'
  end.

Definition sorted (l : list A) : list A := fold_right insert_sorted [] l.

(** The order that the comparison decides. *)
Definition le_of (a b : A) : Prop := leb a b = true.
End PySorted.

(** ** group_text_into_rows *)

(** The dict [rows]: keys in insertion order, each with its list. *)
Definition rows_dict : Type := list (Z * list token).

(** [rows.setdefault(y, []).append(obj)] *)
Fixpoint setdefault_append (y : Z) (obj : token) (rows : rows_dict) : rows_dict :=
  match rows with
  | [] => [(y, [obj])]
  | (k, v) :: rows' =>
      if (k =? y)%Z then (k, v ++ [obj]) :: rows'
      else (k, v) :: setdefault_append y obj rows'
  end.

(** [rows[y]] *)
Fixpoint dict_getitem (y : Z) (rows : rows_dict) : result (list token) :=
  match rows with
  | [] => Raise (KeyError (IntKey y))
  | (k, v) :: rows' => if (k =? y)%Z then Ok v else dict_getitem y rows'
  end.

(** [round(obj['top'] / tolerance) * tolerance] *)
Definition y_key (obj : token) (tolerance : Z) : result Z :=
  t <- getitem (top obj) "top" ;;
  if (tolerance =? 0)%Z then Raise ZeroDivisionError
  else Ok (py_round (float_div t (float_of_int tolerance)) * tolerance)%Z.

(** The first loop, from a given content of [rows]. *)
Fixpoint bucket_loop (tolerance : Z) (text_objs : list token) (rows : rows_dict)
  : result rows_dict :=
  match text_objs with
  | [] => Ok rows
  | obj :: rest =>
      y <- y_key obj tolerance ;;
      bucket_loop tolerance rest (setdefault_append y obj rows)
  end.

Definition key_leb (a b : Q * token) : bool := Qle_bool (fst a) (fst b).

(** [sorted(row, key=lambda x: x['x0'])]: the key of every element is
    computed first, then the elements are sorted on the keys. *)
Definition decorate (w : token) : result (Q * token) :=
  k <- getitem (x0 w) "x0" ;; Ok (k, w).

Definition sorted_by_x0 (row : list token) : result (list token) :=
  keyed <- mapM decorate row ;;
  Ok (map snd (sorted key_leb keyed)).

Definition group_text_into_rows (text_objs : list token) (tolerance : Z)
  : result (list (list token)) :=
  rows <- bucket_loop tolerance text_objs [] ;;
  mapM (fun y => v <- dict_getitem y rows ;; sorted_by_x0 v)
       (sorted Z.leb (map fst rows)).

Definition default_tolerance : Z := 3.

(** The invariant of the first loop: keys are distinct, no bucket is empty,
    and a bucket holds words of its own key only. *)
Definition bucket_ok (tolerance : Z) (kv : Z * list token) : Prop :=
  snd kv <> [] /\ Forall (fun t => y_key t tolerance = Ok (fst kv)) (snd kv).

Definition bucket_inv (tolerance : Z) (rows : rows_dict) : Prop :=
  NoDup (map fst rows) /\ Forall (bucket_ok tolerance) rows.

(** ** build_table_from_rows *)

Definition col_tolerance : Q := 10.

Record scan_state : Type := mk_scan {
  row_data : list string;
  current_cell : string;
  last_x : option Q
}.

(** [if current_cell: row_data.append(current_cell.strip())] *)
Definition flush (st : scan_state) : list string :=
  if PyStr.truthy (current_cell st)
  then row_data st ++ [PyStr.strip (current_cell st)]
  else row_data st.

(** One iteration of the loop over the words of a row. *)
Definition scan_word (st : scan_state) (w : token) : result scan_state :=
  boundary <- match last_x st with
              | None => Ok true
              | Some lx =>
                  a <- getitem (x0 w) "x0" ;; Ok (Qgtb (float_sub a lx) col_tolerance)
              end ;;
  st' <- (if boundary : bool then
            let rd := flush st in
            s <- getitem (text w) "text" ;;
            Ok (mk_scan rd (s ++ " ")%string (last_x st))
          else
            s <- getitem (text w) "text" ;;
            Ok (mk_scan (row_data st) (current_cell st ++ (s ++ " "))%string (last_x st))) ;;
  r <- getitem (x1 w) "x1" ;;
  Ok (mk_scan (row_data st') (current_cell st') (Some r)).

Fixpoint scan_loop (row : list token) (st : scan_state) : result scan_state :=
  match row with
  | [] => Ok st
  | w :: rest => st' <- scan_word st w ;; scan_loop rest st'
  end.

(** The body of the outer loop: the cells of one row. *)
Definition build_row (row : list token) : result (list string) :=
  st <- scan_loop row (mk_scan [] EmptyString None) ;;
  Ok (flush st).

Definition build_table_from_rows (rows : list (list token))
  : result (list (list string)) :=
  mapM build_row rows.

(** The fallback path of a page: clustering, then cell assembly. *)
Definition heuristic_core (text_objs : list token) (tolerance : Z)
  : result (list (list string)) :=
  rows <- group_text_into_rows text_objs tolerance ;;
  build_table_from_rows rows.

(** ** extract_tables_from_pdf *)

(** A cell of a table of [page.extract_tables()] is [None] or a [str]. *)
Definition cell : Type := option string.
Definition table : Type := list (list cell).

(** What the program reads of a pdfplumber page. *)
Record page : Type := mk_page {
  extract_tables : list table;
  extract_words : list token
}.

(** What a run does besides computing its result. *)
Inductive event : Type :=
| Call (name : string)
| Print (line : string).

(** Truth value of a list: non-empty. *)
Definition list_truthy {A : Type} (l : list A) : bool :=
  match l with [] => false | _ :: _ => true end.

Definition is_not_None (c : cell) : bool :=
  match c with Some _ => true | None => false end.

(** [any(row for row in table if any(cell is not None for cell in row))] *)
Definition any_row_with_value (t : table) : bool :=
  existsb list_truthy (filter (fun row => existsb is_not_None row) t).

Definition no_table_message (page_num : nat) : string :=
  ("No table detected on page " ++ PyStr.of_nat page_num ++ ".")%string.

(** The body of the loop over the pages: the events of the iteration and
    the new value of [extracted_tables], or the exception that ends the run. *)
Definition process_page (page_num : nat) (p : page) (extracted_tables : list table)
  : list event * result (list table) :=
  let tables := extract_tables p in
  if list_truthy tables then
    ([Call "extract_tables"],
     Ok (extracted_tables ++ filter any_row_with_value tables))
  else
    let before := [Call "extract_tables"; Call "extract_words";
                   Call "group_text_into_rows"] in
    match group_text_into_rows (extract_words p) default_tolerance with
    | Raise e => (before, Raise e)
    | Ok rows =>
        if list_truthy rows then
          match build_table_from_rows rows with
          | Raise e => (before ++ [Call "build_table_from_rows"], Raise e)
          | Ok t =>
              (before ++ [Call "build_table_from_rows"],
               Ok (extracted_tables ++ [map (map Some) t]))
          end
        else
          (before ++ [Print (no_table_message page_num)], Ok extracted_tables)
    end.

Fixpoint pages_loop (page_num : nat) (pages : list page) (extracted_tables : list table)
  : list event * result (list table) :=
  match pages with
  | [] => ([], Ok extracted_tables)
  | p :: rest =>
      match process_page page_num p extracted_tables with
      | (tr, Ok extracted_tables') =>
          let (tr', r) := pages_loop (S page_num) rest extracted_tables' in
          (tr ++ tr', r)
      | (tr, Raise e) => (tr, Raise e)
      end
  end.

Definition extract_tables_from_pdf (pages : list page) : list event * result (list table) :=
  pages_loop 1 pages [].

(** The fallback path of a page has run when its first step is in the trace. *)
Definition fallback_ran (tr : list event) : Prop := In (Call "extract_words") tr.

(** ** The specification's own notions *)



(** The text of a word.  A run that returns has read the key of every
    word, so the value given here to a word without it is never seen. *)
Definition text_of (w : token) : string :=
  match text w with Some s => s | None => EmptyString end.

(** A cell boundary lies between two consecutive words of a row when the
    gap from the right edge of the first to the left edge of the second,
    as the float subtraction gives it, exceeds the column tolerance. *)
Definition gap_exceeds (prev w : token) : bool :=
  match x0 w, x1 prev with
  | Some a, Some b => Qgtb (float_sub a b) col_tolerance
  | _, _ => false
  end.

(** The words of a row, cell by cell: [cur] is the cell being filled and
    [prev] the word read last. *)
Fixpoint cell_groups_from (prev : token) (cur : list token) (row : list token)
  : list (list token) :=
  match row with
  | [] => [cur]
  | w :: rest =>
      if gap_exceeds prev w then cur :: cell_groups_from w [w] rest
      else cell_groups_from w (cur ++ [w]) rest
  end.

Definition cell_groups (row : list token) : list (list token) :=
  match row with
  | [] => []
  | w :: rest => cell_groups_from w [w] rest
  end.

(** The number of cell boundaries met after the first word of a row. *)
Fixpoint count_boundaries (prev : token) (row : list token) : nat :=
  match row with
  | [] => 0
  | w :: rest => (if gap_exceeds prev w then 1 else 0) + count_boundaries w rest
  end.

(** The accumulator after the words of a cell: each followed by a blank. *)
Definition cell_buffer (g : list token) : string :=
  fold_left (fun acc w => (acc ++ (text_of w ++ " "))%string) g EmptyString.

(** The cell as it is appended to the row. *)
Definition cell_text (g : list token) : string := PyStr.strip (cell_buffer g).

(** The texts of a cell joined by single blanks. *)
Definition joined (g : list token) : string := String.concat " " (map text_of g).

(** A table is usable, in the specification's words, when one of its rows
    has a non-empty cell. *)
Definition spec_usable (t : table) : bool :=
  existsb (existsb (fun c : cell =>
                      match c with Some s => PyStr.truthy s | None => false end)) t.

(** A word lacks a position when one of the keys 'top', 'x0', 'x1' is
    absent. *)
Definition lacks_position (w : token) : Prop :=
  top w = None \/ x0 w = None \/ x1 w = None.

(** The exceptions of a lookup that fails. *)
Definition is_KeyError (e : exn) : Prop := exists k, e = KeyError k.

(** A computation that raises nothing but exceptions of a given kind. *)
Definition raises_only {A : Type} (P : exn -> Prop) (m : result A) : Prop :=
  forall e, m = Raise e -> P e.

(** ** Notions used to describe the result of the clustering *)

(** The word has the bucket key [y]. *)
Definition key_is (tolerance : Z) (y : Z) (t : token) : bool :=
  match y_key t tolerance with
  | Ok k => (k =? y)%Z
  | Raise _ => false
  end.

(** The list stored under a key, empty when the key is absent. *)
Definition bucket_of (y : Z) (rows : rows_dict) : list token :=
  match dict_getitem y rows with
  | Ok v => v
  | Raise _ => []
  end.

(** Both words have an 'x0' and the first is not to the right of the
    second. *)
Definition x0_le (a b : token) : Prop :=
  match x0 a, x0 b with
  | Some p, Some q => p <= q
  | _, _ => False
  end.

(** The word's 'x0' is the number [q]. *)
Definition x0_is (q : Q) (t : token) : bool :=
  match x0 t with
  | Some a => Qeq_bool a q
  | None => false
  end.

(** ** Notions used to describe the cells *)

(** The string neither begins nor ends with whitespace. *)
Definition stripped (s : string) : Prop := PyStr.strip s = s.

(** The empty string, or a string whose first character is no whitespace. *)
Definition starts_clean (s : string) : bool :=
  match s with
  | EmptyString => true
  | String c _ => negb (PyStr.isspace c)
  end.

(** The word moved [dx] to the right, with another 'top'. *)
Definition move (dx : Q) (new_top : token -> option Q) (w : token) : token :=
  {| text := text w;
     x0 := option_map (Qplus dx) (x0 w);
     x1 := option_map (Qplus dx) (x1 w);
     top := new_top w |}.

Definition move_state (dx : Q) (st : scan_state) : scan_state :=
  mk_scan (row_data st) (current_cell st) (option_map (Qplus dx) (last_x st)).

(** The same outcome, on the moved state. *)
Definition move_result (dx : Q) (r : result scan_state) : result scan_state :=
  match r with
  | Ok st => Ok (move_state dx st)
  | Raise e => Raise e
  end.

(** Every gap between consecutive words of the row, after [prev], exceeds
    the column tolerance ([b = true]), or none does ([b = false]). *)
Fixpoint all_gaps (b : bool) (prev : token) (row : list token) : bool :=
  match row with
  | [] => true
  | w :: rest => Bool.eqb (gap_exceeds prev w) b && all_gaps b w rest
  end.

(** ** Notions used to describe a run over the pages *)

(** The tables that a page adds to [extracted_tables] when its iteration
    returns. *)
Definition page_tables (p : page) : list table :=
  if list_truthy (extract_tables p) then
    filter any_row_with_value (extract_tables p)
  else
    match heuristic_core (extract_words p) default_tolerance with
    | Ok (row :: t) => [map (map Some) (row :: t)]
    | _ => []
    end.

(** The page is read without an exception: it has bordered tables, or its
    words have their four keys. *)
Definition readable (p : page) : Prop :=
  extract_tables p <> [] \/ Forall complete (extract_words p).

(** ** export_tables_to_excel and main *)

(** What the program does to the outside, in order: the events of the
    extraction, the calls to pandas and the lines printed.  The exceptions
    of pandas, openpyxl and pdfplumber themselves are not modelled. *)
Inductive action : Type :=
| Extraction (e : event)
| Excel_writer (excel_path : string)
| To_excel (sheet_name : string) (data : table)
| Writer_close
| Say (line : string).

(** [f"Table_{idx+1}"] *)
Definition sheet_name_of (idx : nat) : string :=
  ("Table_" ++ PyStr.of_nat (idx + 1))%string.

(** The loop over [enumerate(tables)], from the index [idx]: one call of
    [pd.DataFrame(table).to_excel(writer, sheet_name=...)] per table. *)
Fixpoint sheets_from (idx : nat) (tables : list table) : list action :=
  match tables with
  | [] => []
  | t :: rest => To_excel (sheet_name_of idx) t :: sheets_from (S idx) rest
  end.

Definition export_tables_to_excel (tables : list table) (excel_path : string)
  : list action :=
  Excel_writer excel_path
  :: sheets_from 0 tables
  ++ [Writer_close; Say ("Tables successfully exported to " ++ excel_path)%string].

(** How a call of [main] ends: it returns, [sys.exit] ends the program
    with a status, or an exception of the extraction goes through. *)
Inductive outcome : Type :=
| Returned
| Exited (status : nat)
| Raised (e : exn).

Section Main.
(** [os.path.exists], the pages of [pdfplumber.open(pdf_path)] and
    [os.path.splitext(pdf_path)[0]]. *)
Variable file_exists : string -> bool.
Variable pdf_pages : string -> list page.
Variable splitext_root : string -> string.

(** [main], given [sys.argv]. *)
Definition main (argv : list string) : list action * outcome :=
  match argv with
  | _ :: pdf_path :: _ =>
      if negb (file_exists pdf_path) then
        ([Say ("File " ++ pdf_path ++ " does not exist.")%string], Exited 1)
      else
        let (tr, r) := extract_tables_from_pdf (pdf_pages pdf_path) in
        let before := Say ("Processing PDF: " ++ pdf_path)%string :: map Extraction tr in
        match r with
        | Raise e => (before, Raised e)
        | Ok tables =>
            if negb (list_truthy tables) then
              (before ++ [Say "No tables detected in the PDF."], Exited 0)
            else
              let output_file := (splitext_root pdf_path ++ "_tables.xlsx")%string in
              (before ++ export_tables_to_excel tables output_file, Returned)
        end
  | _ => ([Say "Usage: python pdf_table_extractor.py <pdf_path>"], Exited 1)
  end.
End Main.

(** The sheets written, with their names, in order. *)
Definition sheets_written (acts : list action) : list (string * table) :=
  flat_map (fun a => match a with To_excel n t => [(n, t)] | _ => [] end) acts.

(** The workbooks opened, in order. *)
Definition writers_opened (acts : list action) : list string :=
  flat_map (fun a => match a with Excel_writer f => [f] | _ => [] end) acts.

(** Every character of the string is whitespace. *)
Definition all_space (s : string) : bool :=
  forallb PyStr.isspace (list_ascii_of_string s).

(** The page has neither a bordered table nor a word. *)
Definition blank_page (p : page) : Prop :=
  extract_tables p = [] /\ extract_words p = [].

(** * Properties *)

(** ** Running the program on the scenarios of the specification *)

Example scenario_grid :
  heuristic_core
    [word "Name" 0 30 100; word "Age" 50 70 100;
     word "Alice" 0 35 120; word "30" 50 60 120] 3
  = Ok [["Name"; "Age"]; ["Alice"; "30"]]%string.
Proof. vm_compute. reflexivity. Qed.

Example scenario_unsorted_input :
  group_text_into_rows
    [word "b" 50 60 120; word "y" 50 70 (199 # 2); word "a" 0 35 119;
     word "x" 0 30 100] 3
  = Ok [[word "x" 0 30 100; word "y" 50 70 (199 # 2)];
        [word "a" 0 35 119; word "b" 50 60 120]].
Proof. vm_compute. reflexivity. Qed.

Example py_round_examples :
  py_round (1 # 2) = 0%Z /\ py_round (3 # 2) = 2%Z /\ py_round (5 # 2) = 2%Z /\
  py_round (- (1 # 2)) = 0%Z /\ py_round (- (3 # 2)) = (-2)%Z /\
  py_round (7 # 10) = 1%Z /\ py_round (- (7 # 10)) = (-1)%Z.
Proof. vm_compute. repeat split. Qed.

(** 0.1, 0.3 and 10.3 as Python reads them, the sum 0.1 + 0.2, the
    difference 10.3 - 0.3, a subnormal number, and the key of a large
    'top'. *)
Example to_double_examples :
  Qeq_bool (to_double (1 # 10)) (3602879701896397 # 36028797018963968) = true /\
  Qeq_bool (to_double (3 # 10)) (5404319552844595 # 18014398509481984) = true /\
  Qeq_bool (to_double (103 # 10)) (2899192260119757 # 281474976710656) = true /\
  Qeq_bool (to_double (to_double (1 # 10) + to_double (2 # 10)))
           (1351079888211149 # 4503599627370496) = true /\
  Qeq_bool (float_sub (to_double (103 # 10)) (to_double (3 # 10))) 10 = true /\
  Qeq_bool (to_double (1 # 10 ^ 320)) (253 * 2 ^ (-1071)) = true /\
  Qeq_bool (to_double (2 ^ 53 + 1)) (2 ^ 53) = true /\
  Qeq_bool (to_double (2 ^ 53 + 3)) (2 ^ 53 + 4) = true /\
  y_key (word "a" 0 1 (2 ^ 53 + 2)) 3 = Ok 9007199254740996%Z.
Proof. vm_compute. repeat split. Qed.

Example scenario_gap_rounded_to_tolerance :
  build_row [word "u" 0 (to_double (3 # 10)) 100; word "v" (to_double (103 # 10)) 12 100]
  = Ok ["u v"%string].
Proof. vm_compute. reflexivity. Qed.

Example strip_examples :
  PyStr.strip "  a b  " = "a b"%string /\ PyStr.strip "   " = ""%string /\
  PyStr.strip "" = ""%string /\ PyStr.strip "word1 word2 " = "word1 word2"%string.
Proof. vm_compute. repeat split. Qed.

(** ** The error monad *)

Lemma bind_Ok_inv {A B : Type} (m : result A) (k : A -> result B) (b : B) :
  bind m k = Ok b -> exists a, m = Ok a /\ k a = Ok b.
Proof.
  destruct m as [a | e]; simpl; intros H; [ | discriminate H ].
  exists a; split; [ reflexivity | exact H ].
Qed.

Lemma mapM_Ok_Forall2 {A B : Type} (f : A -> result B) (l : list A) :
  forall l', mapM f l = Ok l' -> Forall2 (fun x y => f x = Ok y) l l'.
Proof.
  induction l as [ | x l IH ]; simpl; intros l' H.
  - injection H as <-. constructor.
  - apply bind_Ok_inv in H as (y & Hy & H).
    apply bind_Ok_inv in H as (ys & Hys & H).
    injection H as <-. constructor; [ exact Hy | apply IH; exact Hys ].
Qed.

Lemma Forall2_mapM_Ok {A B : Type} (f : A -> result B) (l : list A) (l' : list B) :
  Forall2 (fun x y => f x = Ok y) l l' -> mapM f l = Ok l'.
Proof.
  induction 1 as [ | x y l l' Hxy _ IH ]; simpl.
  - reflexivity.
  - rewrite Hxy; simpl. rewrite IH; reflexivity.
Qed.

Lemma mapM_Ok_map {A B : Type} (f : A -> result B) (g : A -> B) (l : list A) :
  (forall x, In x l -> f x = Ok (g x)) -> mapM f l = Ok (map g l).
Proof.
  induction l as [ | x l IH ]; simpl; intros H.
  - reflexivity.
  - rewrite (H x (or_introl eq_refl)); simpl.
    rewrite IH; [ reflexivity | ].
    intros y Hy. apply H. right; exact Hy.
Qed.

Lemma mapM_total {A B : Type} (f : A -> result B) (l : list A) :
  (forall x, In x l -> exists y, f x = Ok y) -> exists l', mapM f l = Ok l'.
Proof.
  induction l as [ | x l IH ]; simpl; intros H.
  - exists []. reflexivity.
  - destruct (H x (or_introl eq_refl)) as (y & Hy).
    destruct IH as (ys & Hys).
    + intros z Hz. apply H. right; exact Hz.
    + exists (y :: ys). rewrite Hy; simpl. rewrite Hys; reflexivity.
Qed.

(** ** Python strings *)

Module PyStrFacts.
Import PyStr.
Local Open Scope string_scope.

Lemma append_assoc (a b c : string) : (a ++ b) ++ c = a ++ (b ++ c).
Proof. induction a as [ | x a IH ]; simpl; [ reflexivity | rewrite IH; reflexivity ]. Qed.

Lemma append_empty_r (a : string) : a ++ "" = a.
Proof. induction a as [ | x a IH ]; simpl; [ reflexivity | rewrite IH; reflexivity ]. Qed.

Lemma truthy_append_space (s : string) : truthy (s ++ " ") = true.
Proof. destruct s; reflexivity. Qed.

Lemma rstrip_append_space (s : string) : rstrip (s ++ " ") = rstrip s.
Proof.
  induction s as [ | c s IH ]; simpl.
  - reflexivity.
  - rewrite IH. reflexivity.
Qed.

Lemma lstrip_append_space (s : string) :
  (lstrip s = "" /\ lstrip (s ++ " ") = "") \/ lstrip (s ++ " ") = lstrip s ++ " ".
Proof.
  induction s as [ | c s IH ]; simpl.
  - left. split; reflexivity.
  - destruct (isspace c); [ exact IH | right; reflexivity ].
Qed.

(** The blank that the scan puts after every word disappears in the cell. *)
Lemma strip_append_space (s : string) : strip (s ++ " ") = strip s.
Proof.
  unfold strip. destruct (lstrip_append_space s) as [[H1 H2] | H].
  - rewrite H1, H2. reflexivity.
  - rewrite H. apply rstrip_append_space.
Qed.

(** A string without whitespace is left as it is. *)
Lemma rstrip_no_space (s : string) : no_space s = true -> rstrip s = s.
Proof.
  unfold no_space. induction s as [ | c s IH ]; simpl; intros H.
  - reflexivity.
  - apply andb_true_iff in H as [Hc Hs]. rewrite (IH Hs).
    destruct s; [ | reflexivity ].
    destruct (isspace c); [ discriminate Hc | reflexivity ].
Qed.

Lemma strip_no_space (s : string) : no_space s = true -> strip s = s.
Proof.
  intros H. unfold strip.
  assert (Hl : lstrip s = s).
  { destruct s as [ | c s ]; simpl; [ reflexivity | ].
    unfold no_space in H; simpl in H. apply andb_true_iff in H as [Hc _].
    destruct (isspace c); [ discriminate Hc | reflexivity ]. }
  rewrite Hl. apply rstrip_no_space. exact H.
Qed.

End PyStrFacts.

(** ** Rounding *)

Lemma py_round_nearest (q : Q) :
  Qabs (q - inject_Z (py_round q)) <= 1 # 2.
Proof.
  unfold py_round.
  pose proof (Qfloor_le q) as Hlo. pose proof (Qlt_floor q) as Hhi.
  rewrite inject_Z_plus in Hhi. change (inject_Z 1) with 1 in Hhi.
  destruct (Qcompare (q - inject_Z (Qfloor q)) (1 # 2)) eqn:Hc.
  - apply Qeq_alt in Hc.
    destruct (Z.even (Qfloor q)); [ | rewrite inject_Z_plus; change (inject_Z 1) with 1 ];
      apply Qabs_case; intros; lra.
  - apply Qlt_alt in Hc. apply Qabs_case; intros; lra.
  - apply Qgt_alt in Hc. rewrite inject_Z_plus. change (inject_Z 1) with 1. apply Qabs_case; intros; lra.
Qed.

Lemma py_round_half_even (q : Q) :
  Qabs (q - inject_Z (py_round q)) == 1 # 2 -> Z.even (py_round q) = true.
Proof.
  unfold py_round.
  pose proof (Qfloor_le q) as Hlo. pose proof (Qlt_floor q) as Hhi.
  rewrite inject_Z_plus in Hhi. change (inject_Z 1) with 1 in Hhi.
  destruct (Qcompare (q - inject_Z (Qfloor q)) (1 # 2)) eqn:Hc.
  - intros _. destruct (Z.even (Qfloor q)) eqn:He; [ exact He | ].
    rewrite Z.add_1_r, Z.even_succ, <- Z.negb_even, He. reflexivity.
  - apply Qlt_alt in Hc. apply Qabs_case; intros; exfalso; lra.
  - apply Qgt_alt in Hc. rewrite inject_Z_plus. change (inject_Z 1) with 1. apply Qabs_case; intros; exfalso; lra.
Qed.

(** ** Floats *)

Lemma two_power_log2 (n : Z) :
  (0 < n)%Z ->
  2 ^ Z.log2 n <= inject_Z n /\ inject_Z n < 2 ^ (Z.log2 n + 1).
Proof.
  intros Hn. destruct (Z.log2_spec n Hn) as [Hlo Hhi].
  pose proof (Z.log2_nonneg n) as H0.
  rewrite <- Z.add_1_r in Hhi.
  change 2 with (inject_Z 2).
  rewrite <- !Zpower_Qpower by lia.
  rewrite <- Zle_Qle, <- Zlt_Qlt. split; assumption.
Qed.

Lemma ilog2_spec (a : Q) :
  0 < a -> 2 ^ ilog2 a <= a /\ a < 2 ^ (ilog2 a + 1).
Proof.
  intros Ha. unfold ilog2.
  destruct a as [n d]. cbn [Qnum Qden].
  assert (Hn : (0 < n)%Z).
  { unfold Qlt in Ha. simpl in Ha. lia. }
  destruct (two_power_log2 n Hn) as [Hn1 Hn2].
  destruct (two_power_log2 (Zpos d) eq_refl) as [Hd1 Hd2].
  set (ln := Z.log2 n) in *. set (ld := Z.log2 (Zpos d)) in *.
  assert (H2 : ~ 2 == 0) by (intros H; discriminate H).
  assert (Hpd : 0 < 2 ^ ld) by (apply Qpower_0_lt; reflexivity).
  assert (Hpn : 0 < 2 ^ ln) by (apply Qpower_0_lt; reflexivity).
  assert (Had : (n # d) * inject_Z (Zpos d) == inject_Z n).
  { rewrite (Qmake_Qdiv n d). field. intros H. discriminate H. }
  assert (Hup : n # d < 2 ^ (ln - ld + 1)).
  { replace (ln - ld + 1)%Z with ((ln + 1) + - ld)%Z by lia.
    rewrite Qpower_plus, Qpower_opp by exact H2.
    apply Qlt_shift_div_l; [ exact Hpd | ].
    eapply Qle_lt_trans; [ | exact Hn2 ]. rewrite <- Had.
    apply Qmult_le_l; [ exact Ha | exact Hd1 ]. }
  assert (Hlow : 2 ^ (ln - ld - 1) <= n # d).
  { replace (ln - ld - 1)%Z with (ln + - (ld + 1))%Z by lia.
    rewrite Qpower_plus, Qpower_opp by exact H2.
    apply Qle_shift_div_r; [ apply Qpower_0_lt; reflexivity | ].
    eapply Qle_trans; [ exact Hn1 | ]. rewrite <- Had.
    apply Qmult_le_l; [ exact Ha | apply Qlt_le_weak; exact Hd2 ]. }
  destruct (Qle_bool (2 ^ (ln - ld)) (n # d)) eqn:Hc.
  - apply Qle_bool_iff in Hc. split; assumption.
  - split; [ exact Hlow | ].
    replace (ln - ld - 1 + 1)%Z with (ln - ld)%Z by lia.
    apply Qnot_le_lt. intros H. apply Qle_bool_iff in H. congruence.
Qed.

Lemma ulp_pos (q : Q) : 0 < ulp q.
Proof. unfold ulp. apply Qpower_0_lt. reflexivity. Qed.

(** The significand of the rounded number fits in 53 bits. *)
Lemma significand_bound (q : Q) : Qabs (q / ulp q) < 2 ^ 53.
Proof.
  pose proof (ulp_pos q) as Hu.
  assert (Hdiv : Qabs (q / ulp q) == Qabs q / ulp q).
  { unfold Qdiv. rewrite Qabs_Qmult, (Qabs_pos (/ ulp q)); [ reflexivity | ].
    apply Qlt_le_weak, Qinv_lt_0_compat. exact Hu. }
  rewrite Hdiv. apply Qlt_shift_div_r; [ exact Hu | ].
  unfold ulp. set (e := Z.max (ilog2 (Qabs q)) (-1022)).
  assert (H2 : ~ 2 == 0) by (intros H; discriminate H).
  rewrite <- Qpower_plus by exact H2.
  replace (53 + (e - 52))%Z with (e + 1)%Z by lia.
  destruct (Qlt_le_dec 0 (Qabs q)) as [Hpos | Hzero].
  - destruct (ilog2_spec (Qabs q) Hpos) as [_ Hhi].
    eapply Qlt_le_trans; [ exact Hhi | ].
    apply Qpower_le_compat_l; [ unfold e; lia | discriminate ].
  - eapply Qle_lt_trans; [ exact Hzero | ]. apply Qpower_0_lt. reflexivity.
Qed.

Lemma py_round_bound (x : Q) (b : Z) :
  Qabs x < inject_Z b -> (Z.abs (py_round x) <= b)%Z.
Proof.
  intros Hx. pose proof (py_round_nearest x) as Hn.
  set (n := py_round x) in *.
  assert (H : Qabs (inject_Z n) < inject_Z (b + 1)).
  { rewrite inject_Z_plus. change (inject_Z 1) with 1.
    assert (Heq : inject_Z n == x + - (x - inject_Z n)) by ring.
    rewrite Heq. eapply Qle_lt_trans; [ apply Qabs_triangle | ].
    rewrite Qabs_opp. lra. }
  unfold inject_Z in H at 1. rewrite <- Zabs_Qabs in H.
  change (Z.abs n # 1) with (inject_Z (Z.abs n)) in H.
  rewrite <- Zlt_Qlt in H. lia.
Qed.

(** [to_double q] is a multiple [m * ulp] of the unit in the last place
    with a significand [m] of at most 53 bits, at most half a unit from [q],
    and with an even significand when it is exactly half a unit away. *)
Lemma to_double_spec (q : Q) :
  exists m : Z,
    to_double q == inject_Z m * ulp (Qred q) /\
    (Z.abs m <= 2 ^ 53)%Z /\
    Qabs (to_double q - q) <= ulp (Qred q) * (1 # 2) /\
    (Qabs (to_double q - q) == ulp (Qred q) * (1 # 2) -> Z.even m = true).
Proof.
  unfold to_double. cbv zeta.
  pose proof (Qred_correct q) as Hr. set (r := Qred q) in *.
  pose proof (ulp_pos r) as Hu.
  exists (py_round (r / ulp r)). set (m := py_round (r / ulp r)).
  assert (Hdist : Qabs (inject_Z m * ulp r - q)
                  == Qabs (r / ulp r - inject_Z m) * ulp r).
  { rewrite <- (Qabs_pos (ulp r)) at 3 by (apply Qlt_le_weak; exact Hu).
    rewrite <- Qabs_Qmult, <- Hr, <- Qabs_opp. apply Qabs_wd. field.
    intros H. rewrite H in Hu. discriminate Hu. }
  split; [ reflexivity | ].
  split.
  { apply py_round_bound. change (inject_Z (2 ^ 53)) with (2 ^ 53).
    apply significand_bound. }
  split.
  - rewrite Hdist, (Qmult_comm (ulp r)).
    apply Qmult_le_compat_r; [ apply py_round_nearest | apply Qlt_le_weak; exact Hu ].
  - rewrite Hdist, (Qmult_comm (ulp r)). intros H.
    apply py_round_half_even.
    apply Qmult_inj_r in H; [ exact H | ].
    intros E. rewrite E in Hu. discriminate Hu.
Qed.

(** ** sorted() *)

Section PySortedFacts.
Context {A : Type} (leb : A -> A -> bool).
Hypothesis leb_total : forall a b, leb a b = true \/ leb b a = true.

Lemma insert_sorted_Permutation (x : A) (l : list A) :
  Permutation (insert_sorted leb x l) (x :: l).
Proof.
  induction l as [ | y l IH ]; simpl.
  - apply Permutation_refl.
  - destruct (leb x y).
    + apply Permutation_refl.
    + eapply perm_trans; [ apply perm_skip; exact IH | apply perm_swap ].
Qed.

Lemma sorted_Permutation (l : list A) : Permutation (sorted leb l) l.
Proof.
  induction l as [ | x l IH ]; simpl.
  - apply perm_nil.
  - eapply perm_trans; [ apply insert_sorted_Permutation | apply perm_skip; exact IH ].
Qed.

Lemma insert_sorted_HdRel (a x : A) (l : list A) :
  le_of leb a x -> HdRel (le_of leb) a l -> HdRel (le_of leb) a (insert_sorted leb x l).
Proof.
  intros Hax Hal. destruct l as [ | y l ]; simpl.
  - constructor. exact Hax.
  - destruct (leb x y); constructor; [ exact Hax | ].
    inversion Hal; assumption.
Qed.

Lemma insert_sorted_Sorted (x : A) (l : list A) :
  Sorted (le_of leb) l -> Sorted (le_of leb) (insert_sorted leb x l).
Proof.
  induction l as [ | y l IH ]; simpl; intros Hs.
  - repeat constructor.
  - destruct (leb x y) eqn:Hxy.
    + constructor; [ exact Hs | constructor; exact Hxy ].
    + inversion Hs as [ | ? ? Hs' Hhd ]; subst.
      constructor; [ apply IH; exact Hs' | ].
      apply insert_sorted_HdRel; [ | exact Hhd ].
      destruct (leb_total x y) as [H | H]; [ congruence | exact H ].
Qed.

Lemma sorted_Sorted (l : list A) : Sorted (le_of leb) (sorted leb l).
Proof.
  induction l as [ | x l IH ]; simpl.
  - constructor.
  - apply insert_sorted_Sorted. exact IH.
Qed.

(** A list that is in order is returned as it is. *)
Lemma sorted_of_Sorted (l : list A) : Sorted (le_of leb) l -> sorted leb l = l.
Proof.
  induction 1 as [ | x l Hs IH Hhd ]; simpl.
  - reflexivity.
  - rewrite IH. destruct Hhd as [ | y l' Hxy ]; simpl.
    + reflexivity.
    + unfold le_of in Hxy. rewrite Hxy. reflexivity.
Qed.

Lemma sorted_idempotent (l : list A) : sorted leb (sorted leb l) = sorted leb l.
Proof. apply sorted_of_Sorted, sorted_Sorted. Qed.

End PySortedFacts.

Lemma key_leb_total (a b : Q * token) : key_leb a b = true \/ key_leb b a = true.
Proof.
  unfold key_leb. rewrite !Qle_bool_iff.
  destruct (Qlt_le_dec (fst b) (fst a)) as [H | H].
  - right. apply Qlt_le_weak. exact H.
  - left. exact H.
Qed.

(** ** sorted(row, key=...) *)

Lemma decorate_Ok (w : token) (p : Q * token) :
  decorate w = Ok p -> snd p = w /\ x0 w = Some (fst p).
Proof.
  unfold decorate. destruct (x0 w) as [k | ]; simpl; intros H; [ | discriminate H ].
  injection H as <-. split; reflexivity.
Qed.

Lemma decorate_snd (p : Q * token) :
  x0 (snd p) = Some (fst p) -> decorate (snd p) = Ok p.
Proof. unfold decorate. intros ->. destruct p; reflexivity. Qed.

Lemma sorted_by_x0_inv (v r : list token) :
  sorted_by_x0 v = Ok r ->
  exists keyed,
    Forall2 (fun w p => decorate w = Ok p) v keyed /\
    r = map snd (sorted key_leb keyed).
Proof.
  unfold sorted_by_x0. intros H.
  apply bind_Ok_inv in H as (keyed & Hk & H). injection H as <-.
  exists keyed. split; [ | reflexivity ].
  apply mapM_Ok_Forall2. exact Hk.
Qed.

Lemma decorated_map_snd (v : list token) (keyed : list (Q * token)) :
  Forall2 (fun w p => decorate w = Ok p) v keyed ->
  map snd keyed = v /\ Forall (fun p => x0 (snd p) = Some (fst p)) keyed.
Proof.
  induction 1 as [ | w p v keyed Hwp _ [IH1 IH2] ]; simpl.
  - split; constructor.
  - apply decorate_Ok in Hwp as [Hs Hx]. split.
    + rewrite Hs, IH1. reflexivity.
    + constructor; [ rewrite Hs; exact Hx | exact IH2 ].
Qed.

Lemma sorted_by_x0_Permutation (v r : list token) :
  sorted_by_x0 v = Ok r -> Permutation r v.
Proof.
  intros H. apply sorted_by_x0_inv in H as (keyed & Hk & ->).
  apply decorated_map_snd in Hk as [<- _].
  apply Permutation_map, sorted_Permutation.
Qed.

(** Sorting a row that [sorted] returned gives that row again. *)
Lemma sorted_by_x0_fixed (v r : list token) :
  sorted_by_x0 v = Ok r -> sorted_by_x0 r = Ok r.
Proof.
  intros H. apply sorted_by_x0_inv in H as (keyed & Hk & ->).
  apply decorated_map_snd in Hk as [_ Hk].
  assert (Hk' : Forall (fun p => x0 (snd p) = Some (fst p)) (sorted key_leb keyed)).
  { eapply Permutation_Forall; [ | exact Hk ].
    apply Permutation_sym, sorted_Permutation. }
  unfold sorted_by_x0.
  assert (Hm : mapM decorate (map snd (sorted key_leb keyed))
               = Ok (sorted key_leb keyed)).
  { apply Forall2_mapM_Ok.
    induction Hk' as [ | p l Hp _ IH ]; simpl; constructor.
    - apply (decorate_snd p Hp).
    - exact IH. }
  rewrite Hm. simpl.
  rewrite (sorted_idempotent key_leb key_leb_total). reflexivity.
Qed.

Lemma sorted_by_x0_total (v : list token) :
  Forall (fun w => x0 w <> None) v -> exists r, sorted_by_x0 v = Ok r.
Proof.
  intros Hv. unfold sorted_by_x0.
  destruct (mapM_total decorate v) as (keyed & Hk).
  - intros w Hw. rewrite Forall_forall in Hv. specialize (Hv w Hw).
    unfold decorate. destruct (x0 w) as [k | ]; [ | contradiction ].
    exists (k, w). reflexivity.
  - rewrite Hk. simpl. eexists. reflexivity.
Qed.

(** ** The dict of buckets *)

Section Buckets.
Variable tolerance : Z.

Lemma setdefault_append_keys (y : Z) (obj : token) (rows : rows_dict) :
  forall k, In k (map fst (setdefault_append y obj rows)) <->
            k = y \/ In k (map fst rows).
Proof.
  induction rows as [ | [k0 v0] rows IH ]; simpl; intros k.
  - intuition congruence.
  - destruct (Z.eqb_spec k0 y) as [-> | Hne]; simpl.
    + intuition congruence.
    + rewrite IH. intuition congruence.
Qed.

Lemma setdefault_append_inv (y : Z) (obj : token) (rows : rows_dict) :
  y_key obj tolerance = Ok y -> bucket_inv tolerance rows ->
  bucket_inv tolerance (setdefault_append y obj rows).
Proof.
  intros Hy. unfold bucket_inv.
  induction rows as [ | [k0 v0] rows IH ]; simpl; intros [Hnd Hall].
  - split; [ repeat constructor; intros [] | ].
    repeat constructor; unfold bucket_ok; simpl; [ discriminate | exact Hy ].
  - inversion Hnd as [ | ? ? Hnotin Hnd' ]; subst.
    inversion Hall as [ | ? ? [Hne Hk0] Hall' ]; subst. unfold bucket_ok. simpl in *.
    destruct (Z.eqb_spec k0 y) as [-> | Hneq]; simpl.
    + split; [ exact Hnd | ].
      constructor; [ | exact Hall' ]. split; simpl.
      * destruct v0; discriminate.
      * apply Forall_app. split; [ exact Hk0 | repeat constructor; exact Hy ].
    + destruct (IH (conj Hnd' Hall')) as [IH1 IH2].
      split.
      * constructor; [ | exact IH1 ].
        rewrite setdefault_append_keys. intros [-> | Hin]; tauto.
      * constructor; [ split; assumption | exact IH2 ].
Qed.

Lemma setdefault_append_Permutation (y : Z) (obj : token) (rows : rows_dict) :
  Permutation (List.concat (map snd (setdefault_append y obj rows)))
              (List.concat (map snd rows) ++ [obj]).
Proof.
  induction rows as [ | [k0 v0] rows IH ]; simpl.
  - apply Permutation_refl.
  - destruct (k0 =? y)%Z; simpl.
    + rewrite <- !app_assoc. apply Permutation_app_head, Permutation_app_comm.
    + rewrite <- app_assoc. apply Permutation_app_head. exact IH.
Qed.

Lemma bucket_loop_inv (text_objs : list token) :
  forall rows rows',
    bucket_loop tolerance text_objs rows = Ok rows' ->
    bucket_inv tolerance rows ->
    bucket_inv tolerance rows' /\
    Permutation (List.concat (map snd rows')) (List.concat (map snd rows) ++ text_objs).
Proof.
  induction text_objs as [ | obj rest IH ]; simpl; intros rows rows' H Hinv.
  - injection H as <-. split; [ exact Hinv | ].
    rewrite app_nil_r. apply Permutation_refl.
  - apply bind_Ok_inv in H as (y & Hy & H).
    destruct (IH _ _ H (setdefault_append_inv y obj rows Hy Hinv)) as [Hinv' Hperm].
    split; [ exact Hinv' | ].
    eapply perm_trans; [ exact Hperm | ].
    eapply perm_trans;
      [ apply Permutation_app_tail, setdefault_append_Permutation | ].
    rewrite <- app_assoc. apply Permutation_refl.
Qed.

Lemma bucket_loop_total (text_objs : list token) :
  tolerance <> 0%Z ->
  Forall (fun t => top t <> None) text_objs ->
  forall rows, exists rows', bucket_loop tolerance text_objs rows = Ok rows'.
Proof.
  intros Htol. induction 1 as [ | obj rest Hobj _ IH ]; simpl; intros rows.
  - exists rows. reflexivity.
  - unfold y_key. destruct (top obj) as [t | ]; [ | contradiction ]. simpl.
    destruct (Z.eqb_spec tolerance 0) as [H0 | _]; [ contradiction | ].
    simpl. apply IH.
Qed.

(** Words of one key go to one bucket, in the order of the input. *)
Lemma bucket_loop_same_key (y : Z) (text_objs : list token) :
  Forall (fun t => y_key t tolerance = Ok y) text_objs ->
  forall acc,
    bucket_loop tolerance text_objs [(y, acc)] = Ok [(y, acc ++ text_objs)].
Proof.
  induction 1 as [ | obj rest Hobj _ IH ]; simpl; intros acc.
  - rewrite app_nil_r. reflexivity.
  - rewrite Hobj. simpl. rewrite Z.eqb_refl, IH, <- app_assoc. reflexivity.
Qed.

Lemma dict_getitem_In (y : Z) (rows : rows_dict) (v : list token) :
  dict_getitem y rows = Ok v -> In (y, v) rows.
Proof.
  induction rows as [ | [k0 v0] rows IH ]; simpl; intros H.
  - discriminate H.
  - destruct (Z.eqb_spec k0 y) as [-> | _].
    + injection H as <-. left; reflexivity.
    + right. apply IH. exact H.
Qed.

Lemma dict_getitem_total (y : Z) (rows : rows_dict) :
  In y (map fst rows) -> exists v, dict_getitem y rows = Ok v.
Proof.
  induction rows as [ | [k0 v0] rows IH ]; simpl; intros H.
  - contradiction.
  - destruct (Z.eqb_spec k0 y) as [-> | Hne].
    + exists v0. reflexivity.
    + apply IH. destruct H as [H | H]; [ contradiction | exact H ].
Qed.

(** With distinct keys, looking up every key gives every bucket. *)
Lemma dict_getitem_keys (rows : rows_dict) :
  NoDup (map fst rows) ->
  Forall2 (fun y v => dict_getitem y rows = Ok v) (map fst rows) (map snd rows).
Proof.
  induction rows as [ | [k0 v0] rows IH ]; simpl; intros Hnd.
  - constructor.
  - inversion Hnd as [ | ? ? Hnotin Hnd' ]; subst.
    constructor.
    + rewrite Z.eqb_refl. reflexivity.
    + specialize (IH Hnd').
      assert (Hkeys : Forall (fun y => y <> k0) (map fst rows)).
      { rewrite Forall_forall. intros y Hy ->. contradiction. }
      revert IH Hkeys. generalize (map snd rows), (map fst rows).
      induction 1 as [ | y v ks vs Hyv _ IH2 ]; intros Hks; constructor.
      * inversion Hks; subst.
        destruct (Z.eqb_spec k0 y) as [-> | _]; [ contradiction | exact Hyv ].
      * apply IH2. inversion Hks; assumption.
Qed.

End Buckets.

Lemma bucket_inv_nil (tolerance : Z) : bucket_inv tolerance [].
Proof. split; constructor. Qed.

(** ** group_text_into_rows *)

(** What a successful call has computed: the dict [rows] of the first loop
    and, for each of its keys in ascending order, the sorted bucket. *)
Lemma group_text_into_rows_inv (text_objs : list token) (tolerance : Z)
      (out : list (list token)) :
  group_text_into_rows text_objs tolerance = Ok out ->
  exists rows,
    bucket_loop tolerance text_objs [] = Ok rows /\
    Forall2 (fun y r => exists v, dict_getitem y rows = Ok v /\ sorted_by_x0 v = Ok r)
            (sorted Z.leb (map fst rows)) out.
Proof.
  unfold group_text_into_rows. intros H.
  apply bind_Ok_inv in H as (rows & Hrows & H).
  exists rows. split; [ exact Hrows | ].
  apply mapM_Ok_Forall2 in H.
  eapply Forall2_impl; [ | exact H ].
  intros y r Hyr. apply bind_Ok_inv in Hyr as (v & Hv & Hr).
  exists v. split; assumption.
Qed.

Lemma group_text_into_rows_row (text_objs : list token) (tolerance : Z)
      (out : list (list token)) (r : list token) :
  group_text_into_rows text_objs tolerance = Ok out -> In r out ->
  exists y v,
    sorted_by_x0 v = Ok r /\ v <> [] /\
    Forall (fun t => y_key t tolerance = Ok y) v.
Proof.
  intros H Hr. apply group_text_into_rows_inv in H as (rows & Hrows & Hall).
  destruct (bucket_loop_inv tolerance _ _ _ Hrows (bucket_inv_nil tolerance))
    as [[_ Hok] _].
  revert Hr. induction Hall as [ | y r' ks out (v & Hv & Hs) _ IH ]; simpl.
  - intros [].
  - intros [-> | Hr]; [ | exact (IH Hr) ].
    apply dict_getitem_In in Hv.
    rewrite Forall_forall in Hok. destruct (Hok _ Hv) as [Hne Hkeys].
    exists y, v. split; [ exact Hs | split; assumption ].
Qed.

Lemma Forall2_Permutation_concat {A : Type} (l1 l2 : list (list A)) :
  Forall2 (@Permutation A) l1 l2 -> Permutation (List.concat l1) (List.concat l2).
Proof.
  induction 1 as [ | a b l1 l2 Hab _ IH ]; simpl.
  - apply perm_nil.
  - apply Permutation_app; assumption.
Qed.

Lemma Permutation_concat_lists {A : Type} (l1 l2 : list (list A)) :
  Permutation l1 l2 -> Permutation (List.concat l1) (List.concat l2).
Proof.
  induction 1 as [ | a l1 l2 _ IH | a b l | l1 l2 l3 _ IH1 _ IH2 ]; simpl.
  - apply perm_nil.
  - apply Permutation_app_head. exact IH.
  - rewrite !app_assoc. apply Permutation_app_tail, Permutation_app_comm.
  - eapply perm_trans; eassumption.
Qed.

(** Every word of the input is in exactly one row of the output. *)
Lemma group_text_into_rows_Permutation (text_objs : list token) (tolerance : Z)
      (out : list (list token)) :
  group_text_into_rows text_objs tolerance = Ok out ->
  Permutation (List.concat out) text_objs.
Proof.
  intros H. apply group_text_into_rows_inv in H as (rows & Hrows & Hall).
  destruct (bucket_loop_inv tolerance _ _ _ Hrows (bucket_inv_nil tolerance))
    as [[Hnd _] Hperm].
  simpl in Hperm.
  destruct (Permutation_Forall2
              (Permutation_sym (sorted_Permutation Z.leb (map fst rows)))
              (dict_getitem_keys rows Hnd)) as (vs & Hvs & Hget).
  eapply perm_trans; [ | exact Hperm ].
  eapply perm_trans;
    [ | apply Permutation_sym, Permutation_concat_lists; exact Hvs ].
  apply Forall2_Permutation_concat.
  clear Hvs Hperm.
  revert Hall Hget. generalize (sorted Z.leb (map fst rows)). intros ks Hall.
  revert vs. induction Hall as [ | y r ks out (v & Hv & Hs) _ IH ]; intros vs Hget.
  - inversion Hget; subst. constructor.
  - inversion Hget as [ | ? v' ? vs' Hv' Hget' ]; subst.
    constructor; [ | apply IH; exact Hget' ].
    rewrite Hv in Hv'. injection Hv' as <-.
    apply sorted_by_x0_Permutation. exact Hs.
Qed.

Lemma group_text_into_rows_total (text_objs : list token) (tolerance : Z) :
  tolerance <> 0%Z ->
  Forall (fun t => top t <> None) text_objs ->
  Forall (fun t => x0 t <> None) text_objs ->
  exists out, group_text_into_rows text_objs tolerance = Ok out.
Proof.
  intros Htol Htop Hx0. unfold group_text_into_rows.
  destruct (bucket_loop_total tolerance text_objs Htol Htop []) as (rows & Hrows).
  rewrite Hrows. simpl.
  destruct (bucket_loop_inv tolerance _ _ _ Hrows (bucket_inv_nil tolerance))
    as [_ Hperm].
  simpl in Hperm.
  apply mapM_total. intros y Hy.
  apply (Permutation_in _ (sorted_Permutation Z.leb (map fst rows))) in Hy.
  destruct (dict_getitem_total y rows Hy) as (v & Hv).
  rewrite Hv. simpl.
  apply sorted_by_x0_total.
  apply dict_getitem_In in Hv.
  rewrite Forall_forall in Hx0 |- *. intros w Hw. apply Hx0.
  apply (Permutation_in _ Hperm).
  apply in_concat. exists v. split; [ | exact Hw ].
  apply in_map_iff. exists (y, v). split; [ reflexivity | exact Hv ].
Qed.

(** ** C2: the bucket key *)




(** ** C10: no empty row *)

(** C10.  Every row returned by [group_text_into_rows] holds at least one
    word, and the list of rows is non-empty exactly when the list of words
    is: the caller's test [if rows] tells whether the page has words. *)
Theorem group_text_into_rows_no_empty_row (text_objs : list token) (tolerance : Z)
        (out : list (list token)) :
  group_text_into_rows text_objs tolerance = Ok out ->
  Forall (fun r => r <> []) out /\ (out <> [] <-> text_objs <> []).
Proof.
  intros H. split.
  - rewrite Forall_forall. intros r Hr.
    destruct (group_text_into_rows_row _ _ _ _ H Hr) as (y & v & Hs & Hne & _).
    apply sorted_by_x0_Permutation in Hs.
    intros ->. apply Permutation_nil in Hs. contradiction.
  - pose proof (group_text_into_rows_Permutation _ _ _ H) as Hperm.
    split.
    + intros Hout ->. destruct out as [ | r out ]; [ contradiction | ].
      destruct (group_text_into_rows_row _ _ _ r H (or_introl eq_refl))
        as (y & v & Hs & Hne & _).
      apply sorted_by_x0_Permutation in Hs.
      simpl in Hperm. apply Permutation_sym, Permutation_nil in Hperm.
      apply app_eq_nil in Hperm as [-> _].
      apply Permutation_nil in Hs. contradiction.
    + intros Hin ->. simpl in Hperm. apply Permutation_nil in Hperm. contradiction.
Qed.

Lemma group_text_into_rows_no_empty_row_witness :
  group_text_into_rows [word "b" 50 60 120; word "a" 0 35 119] 3
  = Ok [[word "a" 0 35 119; word "b" 50 60 120]] /\
  (Forall (fun r => r <> []) [[word "a" 0 35 119; word "b" 50 60 120]] /\
   ([[word "a" 0 35 119; word "b" 50 60 120]] <> [] <->
    [word "b" 50 60 120; word "a" 0 35 119] <> [])).
Proof.
  split; [ vm_compute; reflexivity | ].
  apply (group_text_into_rows_no_empty_row
           [word "b" 50 60 120; word "a" 0 35 119] 3).
  vm_compute. reflexivity.
Defined.

(** ** C8: clustering a row again *)

(** C8.  A row returned by [group_text_into_rows] is a fixed point of the
    clustering: given the words of that row, with the same tolerance, the
    function returns that row, alone and in the same order. *)
Theorem group_text_into_rows_idempotent (text_objs : list token) (tolerance : Z)
        (out : list (list token)) (r : list token) :
  group_text_into_rows text_objs tolerance = Ok out -> In r out ->
  group_text_into_rows r tolerance = Ok [r].
Proof.
  intros H Hr.
  destruct (group_text_into_rows_row _ _ _ _ H Hr) as (y & v & Hs & Hne & Hkeys).
  pose proof (sorted_by_x0_Permutation _ _ Hs) as Hperm.
  assert (Hkeys' : Forall (fun t => y_key t tolerance = Ok y) r).
  { eapply Permutation_Forall; [ apply Permutation_sym; exact Hperm | exact Hkeys ]. }
  apply sorted_by_x0_fixed in Hs.
  destruct r as [ | t r ].
  - apply Permutation_nil in Hperm. contradiction.
  - unfold group_text_into_rows. simpl bucket_loop.
    inversion Hkeys' as [ | ? ? Ht Hrest ]; subst.
    rewrite Ht. simpl bind at 1. simpl setdefault_append.
    rewrite (bucket_loop_same_key tolerance y r Hrest [t]).
    simpl. rewrite Z.eqb_refl. simpl. rewrite Hs. reflexivity.
Qed.

Lemma group_text_into_rows_idempotent_witness :
  group_text_into_rows
    [word "b" 50 60 120; word "x" 0 30 100; word "a" 0 35 119] 3
  = Ok [[word "x" 0 30 100]; [word "a" 0 35 119; word "b" 50 60 120]] /\
  In [word "a" 0 35 119; word "b" 50 60 120]
     [[word "x" 0 30 100]; [word "a" 0 35 119; word "b" 50 60 120]] /\
  group_text_into_rows [word "a" 0 35 119; word "b" 50 60 120] 3
  = Ok [[word "a" 0 35 119; word "b" 50 60 120]].
Proof.
  split; [ vm_compute; reflexivity | ].
  split; [ right; left; reflexivity | ].
  apply (group_text_into_rows_idempotent
           [word "b" 50 60 120; word "x" 0 30 100; word "a" 0 35 119] 3
           [[word "x" 0 30 100]; [word "a" 0 35 119; word "b" 50 60 120]]).
  - vm_compute. reflexivity.
  - right; left; reflexivity.
Defined.

(** ** C6: a page without words *)

(** C6.  Without words the clustering returns no row and the cell assembly
    no table row, for any tolerance, and nothing is raised; a page without
    bordered tables and without words leaves [extracted_tables] as it was
    and prints the message that no table was detected. *)
Theorem empty_token_set_is_no_table :
  (forall tolerance, group_text_into_rows [] tolerance = Ok []) /\
  build_table_from_rows [] = Ok [] /\
  (forall tolerance, heuristic_core [] tolerance = Ok []) /\
  (forall page_num extracted_tables,
      process_page page_num (mk_page [] []) extracted_tables
      = ([Call "extract_tables"; Call "extract_words"; Call "group_text_into_rows";
          Print (no_table_message page_num)],
         Ok extracted_tables)).
Proof.
  repeat split.
Qed.

(** ** The cells of a row *)

Lemma truthy_append_r (a b : string) :
  PyStr.truthy b = true -> PyStr.truthy (a ++ b)%string = true.
Proof. destruct a; simpl; [ trivial | reflexivity ]. Qed.

Lemma cell_buffer_app (g : list token) (w : token) :
  cell_buffer (g ++ [w]) = (cell_buffer g ++ (text_of w ++ " "))%string.
Proof. unfold cell_buffer. rewrite fold_left_app. reflexivity. Qed.

Lemma cell_buffer_truthy (g : list token) :
  g <> [] -> PyStr.truthy (cell_buffer g) = true.
Proof.
  intros Hne. destruct (exists_last Hne) as (g' & w & ->).
  rewrite cell_buffer_app. apply truthy_append_r, PyStrFacts.truthy_append_space.
Qed.

Lemma fold_left_buffer (g : list token) :
  forall acc,
    fold_left (fun acc w => (acc ++ (text_of w ++ " "))%string) g acc
    = (acc ++ cell_buffer g)%string.
Proof.
  unfold cell_buffer.
  induction g as [ | w g IH ]; simpl; intros acc.
  - rewrite PyStrFacts.append_empty_r. reflexivity.
  - rewrite IH, (IH (text_of w ++ " ")%string), PyStrFacts.append_assoc. reflexivity.
Qed.

(** The accumulator is the texts joined by single blanks, and one blank. *)
Lemma cell_buffer_joined (g : list token) :
  g <> [] -> cell_buffer g = (joined g ++ " ")%string.
Proof.
  induction g as [ | w g IH ]; intros Hne; [ contradiction | ].
  unfold cell_buffer, joined. simpl fold_left.
  rewrite fold_left_buffer. simpl map.
  destruct g as [ | w' g ].
  - change (cell_buffer []) with EmptyString.
    rewrite PyStrFacts.append_empty_r. reflexivity.
  - rewrite IH by discriminate. unfold joined.
    change (String.concat " " (text_of w :: map text_of (w' :: g)))
      with (text_of w ++ " " ++ String.concat " " (map text_of (w' :: g)))%string.
    rewrite !PyStrFacts.append_assoc. reflexivity.
Qed.

Lemma cell_text_joined (g : list token) :
  g <> [] -> cell_text g = PyStr.strip (joined g).
Proof.
  intros Hne. unfold cell_text. rewrite (cell_buffer_joined g Hne).
  apply PyStrFacts.strip_append_space.
Qed.

Lemma cell_groups_from_concat (row : list token) :
  forall prev cur, List.concat (cell_groups_from prev cur row) = cur ++ row.
Proof.
  induction row as [ | w rest IH ]; simpl; intros prev cur.
  - reflexivity.
  - destruct (gap_exceeds prev w); simpl; rewrite IH.
    + reflexivity.
    + rewrite <- app_assoc. reflexivity.
Qed.

Lemma cell_groups_concat (row : list token) : List.concat (cell_groups row) = row.
Proof. destruct row; simpl; [ reflexivity | apply cell_groups_from_concat ]. Qed.

Lemma cell_groups_from_nonempty (row : list token) :
  forall prev cur, cur <> [] ->
                   Forall (fun g => g <> []) (cell_groups_from prev cur row).
Proof.
  induction row as [ | w rest IH ]; simpl; intros prev cur Hne.
  - repeat constructor. exact Hne.
  - destruct (gap_exceeds prev w).
    + constructor; [ exact Hne | apply IH; discriminate ].
    + apply IH. destruct cur; discriminate.
Qed.

Lemma cell_groups_nonempty (row : list token) :
  Forall (fun g => g <> []) (cell_groups row).
Proof.
  destruct row; simpl; [ constructor | apply cell_groups_from_nonempty; discriminate ].
Qed.

Lemma cell_groups_from_length (row : list token) :
  forall prev cur,
    List.length (cell_groups_from prev cur row) = S (count_boundaries prev row).
Proof.
  induction row as [ | w rest IH ]; simpl; intros prev cur.
  - reflexivity.
  - destruct (gap_exceeds prev w); simpl; rewrite IH; reflexivity.
Qed.

(** The scan of the rest of a row, from the state reached after [prev]
    with the words [cur] in the accumulator. *)
Lemma scan_loop_cells (row : list token) :
  Forall complete row ->
  forall prev cur rd lx,
    x1 prev = Some lx -> cur <> [] ->
    exists st gs g,
      scan_loop row (mk_scan rd (cell_buffer cur) (Some lx)) = Ok st /\
      cell_groups_from prev cur row = gs ++ [g] /\ g <> [] /\
      row_data st = rd ++ map cell_text gs /\
      current_cell st = cell_buffer g.
Proof.
  induction 1 as [ | w rest Hw _ IH ]; intros prev cur rd lx Hprev Hcur.
  - exists (mk_scan rd (cell_buffer cur) (Some lx)), [], cur. simpl.
    rewrite app_nil_r. repeat split; try reflexivity; exact Hcur.
  - destruct w as [[s | ] [a | ] [r | ] tp];
      destruct Hw as (Ht & Ha & Hr & _); try contradiction.
    simpl scan_loop. cbn [cell_groups_from]. unfold scan_word, gap_exceeds.
    cbn [last_x x0 x1 text getitem bind row_data current_cell].
    rewrite Hprev.
    set (w := {| text := Some s; x0 := Some a; x1 := Some r; top := tp |}).
    destruct (Qgtb (float_sub a lx) col_tolerance).
    + cbn [bind row_data current_cell last_x].
      unfold flush. cbn [row_data current_cell].
      rewrite (cell_buffer_truthy cur Hcur).
      destruct (IH w [w] (rd ++ [PyStr.strip (cell_buffer cur)]) r eq_refl)
        as (st & gs & g & Hst & Hgs & Hg & Hrd & Hcc);
        [ discriminate | ].
      exists st, (cur :: gs), g.
      change (cell_buffer [w]) with ("" ++ (s ++ " "))%string in Hst.
      split; [ exact Hst | ].
      split; [ rewrite Hgs; reflexivity | ].
      split; [ exact Hg | ].
      split; [ rewrite Hrd, <- app_assoc; reflexivity | ].
      exact Hcc.
    + cbn [bind row_data current_cell last_x].
      destruct (IH w (cur ++ [w]) rd r eq_refl)
        as (st & gs & g & Hst & Hgs & Hg & Hrd & Hcc);
        [ destruct cur; discriminate | ].
      exists st, gs, g.
      rewrite cell_buffer_app in Hst. change (text_of w) with s in Hst.
      split; [ exact Hst | ].
      split; [ exact Hgs | ].
      split; [ exact Hg | ].
      split; [ exact Hrd | ].
      exact Hcc.
Qed.

Lemma scan_row_cells (w : token) (rest : list token) :
  Forall complete (w :: rest) ->
  exists st gs g,
    scan_loop (w :: rest) (mk_scan [] EmptyString None) = Ok st /\
    cell_groups (w :: rest) = gs ++ [g] /\ g <> [] /\
    row_data st = map cell_text gs /\
    current_cell st = cell_buffer g.
Proof.
  intros Hrow. inversion Hrow as [ | ? ? Hw Hrest ]; subst.
  destruct w as [[s | ] a [r | ] tp];
    destruct Hw as (Ht & _ & Hr & _); try contradiction.
  set (w := {| text := Some s; x0 := a; x1 := Some r; top := tp |}).
  destruct (scan_loop_cells rest Hrest w [w] [] r eq_refl)
    as (st & gs & g & Hst & Hgs & Hg & Hrd & Hcc); [ discriminate | ].
  exists st, gs, g. repeat split; assumption.
Qed.

Lemma flush_accumulator (st : scan_state) (gs : list (list token)) (g : list token) :
  g <> [] -> row_data st = map cell_text gs -> current_cell st = cell_buffer g ->
  flush st = map cell_text (gs ++ [g]).
Proof.
  intros Hg Hrd Hcc. unfold flush.
  rewrite Hcc, Hrd, (cell_buffer_truthy g Hg), map_app. reflexivity.
Qed.

(** The cells of a row are the texts of its groups of words. *)
Lemma build_row_cells (row : list token) :
  Forall complete row -> build_row row = Ok (map cell_text (cell_groups row)).
Proof.
  intros Hrow. destruct row as [ | w rest ]; [ reflexivity | ].
  destruct (scan_row_cells w rest Hrow) as (st & gs & g & Hst & Hgs & Hg & Hrd & Hcc).
  unfold build_row. rewrite Hst. cbn [bind].
  rewrite (flush_accumulator st gs g Hg Hrd Hcc), Hgs. reflexivity.
Qed.

Lemma build_table_from_rows_cells (rows : list (list token)) :
  Forall (Forall complete) rows ->
  build_table_from_rows rows
  = Ok (map (fun row => map cell_text (cell_groups row)) rows).
Proof.
  intros H. unfold build_table_from_rows. apply mapM_Ok_map.
  intros row Hrow. apply build_row_cells.
  rewrite Forall_forall in H. apply H. exact Hrow.
Qed.

Lemma complete_positions (text_objs : list token) :
  Forall complete text_objs ->
  Forall (fun t => top t <> None) text_objs /\
  Forall (fun t => x0 t <> None) text_objs.
Proof.
  intros H. split; eapply Forall_impl; try exact H;
    intros t (_ & Hx & _ & Ht); assumption.
Qed.

(** The fallback path on well-formed words: the rows of the clustering,
    each cut into its cells. *)
Lemma heuristic_core_cells (text_objs : list token) (tolerance : Z) :
  tolerance <> 0%Z -> Forall complete text_objs ->
  exists rows,
    group_text_into_rows text_objs tolerance = Ok rows /\
    Permutation (List.concat rows) text_objs /\
    heuristic_core text_objs tolerance
    = Ok (map (fun row => map cell_text (cell_groups row)) rows).
Proof.
  intros Htol Hc. destruct (complete_positions _ Hc) as [Htop Hx0].
  destruct (group_text_into_rows_total _ _ Htol Htop Hx0) as (rows & Hrows).
  pose proof (group_text_into_rows_Permutation _ _ _ Hrows) as Hperm.
  exists rows. split; [ exact Hrows | ]. split; [ exact Hperm | ].
  unfold heuristic_core. rewrite Hrows. cbn [bind].
  apply build_table_from_rows_cells.
  rewrite Forall_forall. intros row Hrow.
  rewrite Forall_forall. intros w Hw.
  rewrite Forall_forall in Hc. apply Hc.
  apply (Permutation_in _ Hperm). apply in_concat. exists row. split; assumption.
Qed.

(** ** C4: where a cell starts *)

Lemma gap_exceeds_iff (p q : token) (a b : Q) :
  x1 p = Some b -> x0 q = Some a ->
  (gap_exceeds p q = true <-> 10 < float_sub a b).
Proof.
  intros Hp Hq. unfold gap_exceeds, Qgtb. rewrite Hp, Hq.
  change col_tolerance with 10.
  rewrite negb_true_iff, <- not_true_iff_false, Qle_bool_iff.
  split; [ apply Qnot_le_lt | apply Qlt_not_le ].
Qed.

Example scenario_small_gap :
  build_row [word "word1" 0 20 100; word "word2" 25 40 100] = Ok ["word1 word2"%string].
Proof. vm_compute. reflexivity. Qed.

Example scenario_large_gap :
  build_row [word "word1" 0 20 100; word "word2" 40 55 100]
  = Ok ["word1"%string; "word2"%string].
Proof. vm_compute. reflexivity. Qed.

Example scenario_gap_of_tolerance :
  build_row [word "word1" 0 20 100; word "word2" 30 45 100] = Ok ["word1 word2"%string].
Proof. vm_compute. reflexivity. Qed.

Lemma build_row_pair (w w' : token) :
  Forall complete [w; w'] ->
  build_row [w; w']
  = Ok (if gap_exceeds w w'
        then [PyStr.strip (text_of w); PyStr.strip (text_of w')]
        else [PyStr.strip (text_of w ++ " " ++ text_of w')]).
Proof.
  intros Hrow. rewrite (build_row_cells _ Hrow). simpl cell_groups.
  destruct (gap_exceeds w w'); simpl map;
    rewrite !cell_text_joined by discriminate; reflexivity.
Qed.

(** C4.  The scan of a row of well-formed words opens a cell at the first
    word and at every later word whose [x0] minus the [x1] of the word
    before it, as the float subtraction of the program gives it, is
    strictly greater than 10, and at no other word; any other word is added
    to the cell of the word before it.  So the cells are the texts of the
    groups that these boundaries cut the row into, in order, and there is
    one cell more than there are boundaries after the first word.  In
    particular a word that starts at 25 after a word that ends at 20 is
    merged with it, and a word that starts at 40 opens a cell. *)
Theorem build_row_cell_boundaries (w : token) (rest : list token) :
  Forall complete (w :: rest) ->
  build_row (w :: rest) = Ok (map cell_text (cell_groups (w :: rest))) /\
  List.concat (cell_groups (w :: rest)) = w :: rest /\
  List.length (cell_groups (w :: rest)) = S (count_boundaries w rest) /\
  (forall w', rest = [w'] ->
     build_row (w :: rest)
     = Ok (if gap_exceeds w w' then [cell_text [w]; cell_text [w']]
           else [cell_text [w; w']])) /\
  (forall p q a b, x1 p = Some b -> x0 q = Some a ->
     (gap_exceeds p q = true <-> 10 < float_sub a b)) /\
  (forall s1 s2 a b y1 y2,
      build_row [word s1 a 20 y1; word s2 25 b y2]
      = Ok [PyStr.strip (s1 ++ " " ++ s2)]) /\
  (forall s1 s2 a b y1 y2,
      build_row [word s1 a 20 y1; word s2 40 b y2]
      = Ok [PyStr.strip s1; PyStr.strip s2]).
Proof.
  intros Hrow. split; [ apply build_row_cells; exact Hrow | ].
  split; [ apply cell_groups_concat | ].
  split; [ apply cell_groups_from_length | ].
  split.
  { intros w' ->. rewrite (build_row_cells _ Hrow). simpl.
    destruct (gap_exceeds w w'); reflexivity. }
  split; [ intros p q a b Hp Hq; apply (gap_exceeds_iff p q a b Hp Hq) | ].
  split; intros s1 s2 a b y1 y2.
  - rewrite build_row_pair by (repeat constructor; discriminate).
    assert (Hg : gap_exceeds (word s1 a 20 y1) (word s2 25 b y2) = false)
      by (vm_compute; reflexivity).
    rewrite Hg. reflexivity.
  - rewrite build_row_pair by (repeat constructor; discriminate).
    assert (Hg : gap_exceeds (word s1 a 20 y1) (word s2 40 b y2) = true)
      by (vm_compute; reflexivity).
    rewrite Hg. reflexivity.
Qed.

Lemma build_row_cell_boundaries_witness :
  Forall complete [word "word1" 0 20 100; word "word2" 25 40 100] /\
  build_row [word "word1" 0 20 100; word "word2" 25 40 100]
  = Ok (map cell_text (cell_groups [word "word1" 0 20 100; word "word2" 25 40 100])).
Proof.
  assert (H : Forall complete [word "word1" 0 20 100; word "word2" 25 40 100]).
  { repeat constructor; discriminate. }
  split; [ exact H | ].
  apply (build_row_cell_boundaries (word "word1" 0 20 100) [word "word2" 25 40 100] H).
Defined.

(** ** C7: the last cell of a row *)

(** C7.  On a row of well-formed words the scan ends with a non-empty
    accumulator whenever the row has a word (whatever the texts, the blank
    put after a word makes it so), and the cells returned are the cells
    completed during the scan followed by the stripped accumulator: the last
    cell is never lost and the row has a cell.  A row without words has no
    cell. *)
Theorem build_row_flushes_accumulator (row : list token) :
  Forall complete row ->
  exists cells,
    build_row row = Ok cells /\
    (row = [] -> cells = []) /\
    (row <> [] ->
     cells <> [] /\
     exists st,
       scan_loop row (mk_scan [] EmptyString None) = Ok st /\
       PyStr.truthy (current_cell st) = true /\
       cells = row_data st ++ [PyStr.strip (current_cell st)]).
Proof.
  intros Hrow. destruct row as [ | w rest ].
  - exists []. split; [ reflexivity | ]. split; [ reflexivity | ].
    intros H. contradiction.
  - destruct (scan_row_cells w rest Hrow) as (st & gs & g & Hst & Hgs & Hg & Hrd & Hcc).
    assert (Htr : PyStr.truthy (current_cell st) = true).
    { rewrite Hcc. apply cell_buffer_truthy. exact Hg. }
    exists (row_data st ++ [PyStr.strip (current_cell st)]).
    split; [ | split; [ discriminate | ] ].
    + unfold build_row. rewrite Hst. cbn [bind]. unfold flush. rewrite Htr. reflexivity.
    + intros _. split; [ destruct (row_data st); discriminate | ].
      exists st. repeat split; assumption.
Qed.

Lemma build_row_flushes_accumulator_witness :
  Forall complete [word "" 0 0 7; word "b" 30 40 7] /\
  exists cells,
    build_row [word "" 0 0 7; word "b" 30 40 7] = Ok cells /\
    ([word "" 0 0 7; word "b" 30 40 7] = [] -> cells = []) /\
    ([word "" 0 0 7; word "b" 30 40 7] <> [] ->
     cells <> [] /\
     exists st,
       scan_loop [word "" 0 0 7; word "b" 30 40 7] (mk_scan [] EmptyString None)
       = Ok st /\
       PyStr.truthy (current_cell st) = true /\
       cells = row_data st ++ [PyStr.strip (current_cell st)]).
Proof.
  assert (H : Forall complete [word "" 0 0 7; word "b" 30 40 7]).
  { repeat constructor; discriminate. }
  split; [ exact H | ].
  apply (build_row_flushes_accumulator [word "" 0 0 7; word "b" 30 40 7] H).
Defined.

(** ** C3: the text of a cell *)

Lemma group_text_into_rows_singleton (w : token) (tolerance : Z) :
  tolerance <> 0%Z -> top w <> None -> x0 w <> None ->
  group_text_into_rows [w] tolerance = Ok [[w]].
Proof.
  intros Htol Htop Hx0.
  assert (Hy : exists y, y_key w tolerance = Ok y).
  { unfold y_key. destruct (top w) as [t | ]; [ | contradiction ].
    cbn [getitem bind].
    destruct (Z.eqb_spec tolerance 0); [ contradiction | eexists; reflexivity ]. }
  destruct Hy as (y & Hy).
  unfold group_text_into_rows. cbn [bucket_loop]. rewrite Hy.
  cbn [bind setdefault_append map fst sorted fold_right insert_sorted mapM dict_getitem].
  rewrite Z.eqb_refl. cbn [bind].
  unfold sorted_by_x0. cbn [mapM]. unfold decorate.
  destruct (x0 w) as [a | ]; [ | contradiction ].
  reflexivity.
Qed.

(** C3 (as the program has it).  On well-formed words every cell of the
    table is the texts of its words joined by single blanks and stripped of
    whitespace at both ends, as [str.strip] does.  For a single word the
    table is one row of one cell, the stripped text of the word; that is
    the text itself when the text holds no whitespace. *)
Theorem cell_is_stripped_join (text_objs : list token) (tolerance : Z) :
  tolerance <> 0%Z -> Forall complete text_objs ->
  exists rows,
    group_text_into_rows text_objs tolerance = Ok rows /\
    heuristic_core text_objs tolerance
    = Ok (map (fun row => map (fun g => PyStr.strip (joined g)) (cell_groups row)) rows) /\
    (forall w, text_objs = [w] ->
       heuristic_core text_objs tolerance = Ok [[PyStr.strip (text_of w)]] /\
       (PyStr.no_space (text_of w) = true ->
        heuristic_core text_objs tolerance = Ok [[text_of w]])).
Proof.
  intros Htol Hc.
  destruct (heuristic_core_cells _ _ Htol Hc) as (rows & Hrows & _ & Hcore).
  assert (Hcells : map (fun row => map cell_text (cell_groups row)) rows
                   = map (fun row => map (fun g => PyStr.strip (joined g))
                                         (cell_groups row)) rows).
  { apply map_ext. intros row. apply map_ext_in. intros g Hg.
    apply cell_text_joined.
    pose proof (cell_groups_nonempty row) as Hne.
    rewrite Forall_forall in Hne. apply Hne. exact Hg. }
  exists rows. split; [ exact Hrows | ].
  split; [ rewrite Hcore, Hcells; reflexivity | ].
  intros w ->. inversion Hc as [ | ? ? Hw _ ]; subst.
  assert (Hone : heuristic_core [w] tolerance = Ok [[PyStr.strip (text_of w)]]).
  { destruct Hw as (_ & Hx & _ & Ht).
    rewrite (group_text_into_rows_singleton w tolerance Htol Ht Hx) in Hrows.
    injection Hrows as <-. rewrite Hcore, Hcells. reflexivity. }
  split; [ exact Hone | ].
  intros Hns. rewrite Hone, (PyStrFacts.strip_no_space _ Hns). reflexivity.
Qed.

Lemma cell_is_stripped_join_witness :
  3%Z <> 0%Z /\ Forall complete [word "Alice" 0 35 120] /\
  exists rows,
    group_text_into_rows [word "Alice" 0 35 120] 3 = Ok rows /\
    heuristic_core [word "Alice" 0 35 120] 3
    = Ok (map (fun row => map (fun g => PyStr.strip (joined g)) (cell_groups row)) rows) /\
    (forall w, [word "Alice" 0 35 120] = [w] ->
       heuristic_core [word "Alice" 0 35 120] 3 = Ok [[PyStr.strip (text_of w)]] /\
       (PyStr.no_space (text_of w) = true ->
        heuristic_core [word "Alice" 0 35 120] 3 = Ok [[text_of w]])).
Proof.
  assert (H : Forall complete [word "Alice" 0 35 120]).
  { repeat constructor; discriminate. }
  split; [ discriminate | ]. split; [ exact H | ].
  apply (cell_is_stripped_join [word "Alice" 0 35 120] 3); [ discriminate | exact H ].
Defined.

(** C3 (as the specification states it) fails: whitespace at the start of
    the text of the first word of a cell is removed too, so the cell of the
    single word [" a"] is ["a"], neither the text of the word nor the text
    with its trailing whitespace trimmed. *)
Lemma cell_leading_whitespace_counterexample :
  heuristic_core [word " a" 0 10 100] 3 = Ok [["a"%string]] /\
  PyStr.rstrip (joined [word " a" 0 10 100]) = " a"%string /\
  heuristic_core [word " a" 0 10 100] 3
  <> Ok [[PyStr.rstrip (joined [word " a" 0 10 100])]].
Proof.
  split; [ vm_compute; reflexivity | ]. split; [ reflexivity | ].
  vm_compute. discriminate.
Qed.

(** ** C5: no word is lost *)

Lemma concat_cell_groups (rows : list (list token)) :
  List.concat (List.concat (map cell_groups rows)) = List.concat rows.
Proof.
  induction rows as [ | row rows IH ]; simpl.
  - reflexivity.
  - rewrite concat_app, IH, cell_groups_concat. reflexivity.
Qed.

(** C5.  On well-formed words the table is the image of a partition of the
    words: every row of the table comes from a row of the clustering, every
    cell from a non-empty group of consecutive words of that row, and the
    groups of all the cells, taken together, are the words of the input,
    each one once.  In particular there are as many words in the cells as
    in the input. *)
Theorem no_token_loss (text_objs : list token) (tolerance : Z) :
  tolerance <> 0%Z -> Forall complete text_objs ->
  exists rows,
    group_text_into_rows text_objs tolerance = Ok rows /\
    heuristic_core text_objs tolerance
    = Ok (map (map cell_text) (map cell_groups rows)) /\
    Forall (Forall (fun g => g <> [])) (map cell_groups rows) /\
    Permutation (List.concat (List.concat (map cell_groups rows))) text_objs /\
    List.length (List.concat (List.concat (map cell_groups rows)))
    = List.length text_objs.
Proof.
  intros Htol Hc.
  destruct (heuristic_core_cells _ _ Htol Hc) as (rows & Hrows & Hperm & Hcore).
  exists rows. split; [ exact Hrows | ].
  split; [ rewrite Hcore, map_map; reflexivity | ].
  split.
  { rewrite Forall_forall. intros gs Hgs.
    apply in_map_iff in Hgs as (row & <- & _). apply cell_groups_nonempty. }
  rewrite concat_cell_groups.
  split; [ exact Hperm | apply Permutation_length; exact Hperm ].
Qed.

Lemma no_token_loss_witness :
  3%Z <> 0%Z /\
  Forall complete [word "30" 50 60 120; word "Name" 0 30 100; word "Alice" 0 35 120] /\
  exists rows,
    group_text_into_rows
      [word "30" 50 60 120; word "Name" 0 30 100; word "Alice" 0 35 120] 3 = Ok rows /\
    heuristic_core
      [word "30" 50 60 120; word "Name" 0 30 100; word "Alice" 0 35 120] 3
    = Ok (map (map cell_text) (map cell_groups rows)) /\
    Forall (Forall (fun g => g <> [])) (map cell_groups rows) /\
    Permutation (List.concat (List.concat (map cell_groups rows)))
                [word "30" 50 60 120; word "Name" 0 30 100; word "Alice" 0 35 120] /\
    List.length (List.concat (List.concat (map cell_groups rows)))
    = List.length [word "30" 50 60 120; word "Name" 0 30 100; word "Alice" 0 35 120].
Proof.
  assert (H : Forall complete
                [word "30" 50 60 120; word "Name" 0 30 100; word "Alice" 0 35 120]).
  { repeat constructor; discriminate. }
  split; [ discriminate | ]. split; [ exact H | ].
  apply (no_token_loss
           [word "30" 50 60 120; word "Name" 0 30 100; word "Alice" 0 35 120] 3);
    [ discriminate | exact H ].
Defined.

(** ** C9: words without a position *)

Section RaisesOnly.
Context (P : exn -> Prop).

Lemma raises_only_Ok {A : Type} (a : A) : raises_only P (Ok a).
Proof. intros e H. discriminate H. Qed.

Lemma raises_only_bind {A B : Type} (m : result A) (k : A -> result B) :
  raises_only P m -> (forall a, raises_only P (k a)) -> raises_only P (bind m k).
Proof.
  intros Hm Hk e. destruct m as [a | e']; simpl; intros H.
  - exact (Hk a e H).
  - injection H as <-. apply Hm. reflexivity.
Qed.

Lemma raises_only_mapM {A B : Type} (f : A -> result B) (l : list A) :
  (forall x, raises_only P (f x)) -> raises_only P (mapM f l).
Proof.
  intros Hf. induction l as [ | x l IH ]; simpl.
  - apply raises_only_Ok.
  - apply raises_only_bind; [ apply Hf | intros y ].
    apply raises_only_bind; [ exact IH | intros ys; apply raises_only_Ok ].
Qed.
End RaisesOnly.

Lemma raises_only_getitem {A : Type} (field : option A) (key : string) :
  raises_only is_KeyError (getitem field key).
Proof.
  intros e. destruct field; simpl; intros H; [ discriminate H | ].
  injection H as <-. eexists; reflexivity.
Qed.

Local Ltac raises_step :=
  first [ apply raises_only_Ok
        | apply raises_only_getitem
        | apply raises_only_bind; [ | intro ]
        | apply raises_only_mapM; intro ].

Lemma raises_only_y_key (w : token) (tolerance : Z) :
  tolerance <> 0%Z -> raises_only is_KeyError (y_key w tolerance).
Proof.
  intros Htol. unfold y_key. repeat raises_step.
  destruct (Z.eqb_spec tolerance 0); [ contradiction | apply raises_only_Ok ].
Qed.

Lemma raises_only_bucket_loop (tolerance : Z) (text_objs : list token) :
  tolerance <> 0%Z ->
  forall rows, raises_only is_KeyError (bucket_loop tolerance text_objs rows).
Proof.
  intros Htol. induction text_objs as [ | obj rest IH ]; simpl; intros rows.
  - apply raises_only_Ok.
  - apply raises_only_bind; [ apply raises_only_y_key; exact Htol | intros y; apply IH ].
Qed.

Lemma raises_only_dict_getitem (y : Z) (rows : rows_dict) :
  raises_only is_KeyError (dict_getitem y rows).
Proof.
  induction rows as [ | [k v] rows IH ]; simpl.
  - intros e H. injection H as <-. eexists; reflexivity.
  - destruct (k =? y)%Z; [ apply raises_only_Ok | exact IH ].
Qed.

Lemma raises_only_sorted_by_x0 (row : list token) :
  raises_only is_KeyError (sorted_by_x0 row).
Proof. unfold sorted_by_x0, decorate. repeat raises_step. Qed.

Lemma raises_only_group_text_into_rows (text_objs : list token) (tolerance : Z) :
  tolerance <> 0%Z ->
  raises_only is_KeyError (group_text_into_rows text_objs tolerance).
Proof.
  intros Htol. unfold group_text_into_rows.
  apply raises_only_bind; [ apply raises_only_bucket_loop; exact Htol | intros rows ].
  apply raises_only_mapM. intros y.
  apply raises_only_bind; [ apply raises_only_dict_getitem | intros v ].
  apply raises_only_sorted_by_x0.
Qed.

Lemma raises_only_scan_word (st : scan_state) (w : token) :
  raises_only is_KeyError (scan_word st w).
Proof.
  unfold scan_word.
  apply raises_only_bind; [ destruct (last_x st); repeat raises_step | intros b ].
  apply raises_only_bind; [ destruct b; repeat raises_step | intros st' ].
  repeat raises_step.
Qed.

Lemma raises_only_scan_loop (row : list token) :
  forall st, raises_only is_KeyError (scan_loop row st).
Proof.
  induction row as [ | w rest IH ]; simpl; intros st.
  - apply raises_only_Ok.
  - apply raises_only_bind; [ apply raises_only_scan_word | intros st'; apply IH ].
Qed.

Lemma raises_only_heuristic_core (text_objs : list token) (tolerance : Z) :
  tolerance <> 0%Z -> raises_only is_KeyError (heuristic_core text_objs tolerance).
Proof.
  intros Htol. unfold heuristic_core.
  apply raises_only_bind;
    [ apply raises_only_group_text_into_rows; exact Htol | intros rows ].
  unfold build_table_from_rows. apply raises_only_mapM. intros row.
  unfold build_row.
  apply raises_only_bind; [ apply raises_only_scan_loop | intros st ].
  apply raises_only_Ok.
Qed.

(** What a run that returns has read. *)

Lemma bucket_loop_Ok_top (tolerance : Z) (text_objs : list token) :
  forall rows rows',
    bucket_loop tolerance text_objs rows = Ok rows' ->
    Forall (fun t => top t <> None) text_objs.
Proof.
  induction text_objs as [ | obj rest IH ]; simpl; intros rows rows' H.
  - constructor.
  - apply bind_Ok_inv in H as (y & Hy & H).
    constructor; [ | exact (IH _ _ H) ].
    unfold y_key in Hy. destruct (top obj); [ discriminate | discriminate Hy ].
Qed.

Lemma sorted_by_x0_Ok_x0 (v r : list token) :
  sorted_by_x0 v = Ok r -> Forall (fun t => x0 t <> None) v.
Proof.
  intros H. apply sorted_by_x0_inv in H as (keyed & Hk & _).
  induction Hk as [ | w p v keyed Hwp _ IH ]; constructor; [ | exact IH ].
  apply decorate_Ok in Hwp as [_ Hx]. rewrite Hx. discriminate.
Qed.

Lemma group_text_into_rows_Ok_positions (text_objs : list token) (tolerance : Z)
      (out : list (list token)) :
  group_text_into_rows text_objs tolerance = Ok out ->
  Forall (fun t => top t <> None /\ x0 t <> None) text_objs.
Proof.
  intros H.
  pose proof (group_text_into_rows_Permutation _ _ _ H) as Hperm.
  assert (Htop : Forall (fun t => top t <> None) text_objs).
  { destruct (group_text_into_rows_inv _ _ _ H) as (rows & Hrows & _).
    exact (bucket_loop_Ok_top _ _ _ _ Hrows). }
  rewrite Forall_forall in Htop |- *. intros t Ht.
  split; [ exact (Htop t Ht) | ].
  apply (Permutation_in _ (Permutation_sym Hperm)) in Ht.
  apply in_concat in Ht as (r & Hr & Htr).
  destruct (group_text_into_rows_row _ _ _ _ H Hr) as (y & v & Hs & _ & _).
  apply sorted_by_x0_fixed, sorted_by_x0_Ok_x0 in Hs.
  rewrite Forall_forall in Hs. exact (Hs t Htr).
Qed.

Lemma scan_word_Ok_x1 (st st' : scan_state) (w : token) :
  scan_word st w = Ok st' -> x1 w <> None.
Proof.
  unfold scan_word. intros H.
  apply bind_Ok_inv in H as (b & _ & H).
  apply bind_Ok_inv in H as (st1 & _ & H).
  destruct (x1 w); [ discriminate | discriminate H ].
Qed.

Lemma scan_loop_Ok_x1 (row : list token) :
  forall st st', scan_loop row st = Ok st' -> Forall (fun w => x1 w <> None) row.
Proof.
  induction row as [ | w rest IH ]; simpl; intros st st' H.
  - constructor.
  - apply bind_Ok_inv in H as (st1 & Hw & H).
    constructor; [ exact (scan_word_Ok_x1 _ _ _ Hw) | exact (IH _ _ H) ].
Qed.

Lemma build_table_from_rows_Ok_x1 (rows : list (list token)) (t : list (list string)) :
  build_table_from_rows rows = Ok t ->
  Forall (fun w => x1 w <> None) (List.concat rows).
Proof.
  unfold build_table_from_rows. intros H. apply mapM_Ok_Forall2 in H.
  induction H as [ | row cells rows t Hrow _ IH ]; simpl.
  - constructor.
  - apply Forall_app. split; [ | exact IH ].
    unfold build_row in Hrow. apply bind_Ok_inv in Hrow as (st & Hst & _).
    exact (scan_loop_Ok_x1 _ _ _ Hst).
Qed.

Lemma heuristic_core_Ok_positions (text_objs : list token) (tolerance : Z)
      (t : list (list string)) :
  heuristic_core text_objs tolerance = Ok t ->
  Forall (fun w => ~ lacks_position w) text_objs.
Proof.
  unfold heuristic_core. intros H.
  apply bind_Ok_inv in H as (rows & Hrows & Ht).
  pose proof (group_text_into_rows_Ok_positions _ _ _ Hrows) as Hpos.
  pose proof (group_text_into_rows_Permutation _ _ _ Hrows) as Hperm.
  pose proof (Permutation_Forall Hperm (build_table_from_rows_Ok_x1 _ _ Ht)) as Hx1.
  rewrite Forall_forall in Hpos, Hx1 |- *. intros w Hw.
  destruct (Hpos w Hw) as [Htop Hx0]. specialize (Hx1 w Hw).
  unfold lacks_position. tauto.
Qed.

(** C9.  When a word of the page lacks 'top', 'x0' or 'x1', the fallback
    path returns no table: it ends with an exception, and for a tolerance
    other than zero that exception is the [KeyError] of a lookup that
    failed.  No position is ever made up. *)
Theorem malformed_token_raises (text_objs : list token) (tolerance : Z) (w : token) :
  In w text_objs -> lacks_position w ->
  exists e,
    heuristic_core text_objs tolerance = Raise e /\
    (tolerance <> 0%Z -> is_KeyError e).
Proof.
  intros Hin Hlack.
  destruct (heuristic_core text_objs tolerance) as [t | e] eqn:Hcore.
  - apply heuristic_core_Ok_positions in Hcore.
    rewrite Forall_forall in Hcore. destruct (Hcore w Hin Hlack).
  - exists e. split; [ reflexivity | ].
    intros Htol. exact (raises_only_heuristic_core _ _ Htol e Hcore).
Qed.

Lemma malformed_token_raises_witness :
  In (mk_token (Some "30"%string) (Some 50) None (Some 120))
     [word "Alice" 0 35 120; mk_token (Some "30"%string) (Some 50) None (Some 120)] /\
  lacks_position (mk_token (Some "30"%string) (Some 50) None (Some 120)) /\
  exists e,
    heuristic_core
      [word "Alice" 0 35 120; mk_token (Some "30"%string) (Some 50) None (Some 120)] 3
    = Raise e /\
    (3%Z <> 0%Z -> is_KeyError e).
Proof.
  split; [ right; left; reflexivity | ].
  split; [ right; right; reflexivity | ].
  apply (malformed_token_raises
           [word "Alice" 0 35 120; mk_token (Some "30"%string) (Some 50) None (Some 120)]
           3 (mk_token (Some "30"%string) (Some 50) None (Some 120))).
  - right; left; reflexivity.
  - right; right; reflexivity.
Defined.

Example malformed_token_examples :
  heuristic_core [word "a" 0 1 5; mk_token (Some "b"%string) (Some 2) (Some 3) None] 3
  = Raise (KeyError (StrKey "top")) /\
  heuristic_core [word "a" 0 1 5; mk_token (Some "b"%string) None (Some 3) (Some 5)] 3
  = Raise (KeyError (StrKey "x0")) /\
  heuristic_core [word "a" 0 1 5; mk_token (Some "b"%string) (Some 2) None (Some 5)] 3
  = Raise (KeyError (StrKey "x1")) /\
  heuristic_core [mk_token (Some "b"%string) None (Some 3) (Some 5)] 3
  = Raise (KeyError (StrKey "x0")).
Proof. vm_compute. repeat split. Qed.

(** ** C1: when the fallback path runs *)

Lemma any_row_with_value_iff (t : table) :
  any_row_with_value t = true <-> exists row s, In row t /\ In (Some s) row.
Proof.
  unfold any_row_with_value. rewrite existsb_exists. split.
  - intros (row & Hrow & _). apply filter_In in Hrow as [Hin Hex].
    apply existsb_exists in Hex as (c & Hc & Hsome).
    destruct c as [s | ]; [ | discriminate Hsome ].
    exists row, s. split; assumption.
  - intros (row & s & Hrow & Hs). exists row. split.
    + apply filter_In. split; [ exact Hrow | ].
      apply existsb_exists. exists (Some s). split; [ exact Hs | reflexivity ].
    + destruct row; [ destruct Hs | reflexivity ].
Qed.

(** C1 (as the program has it).  The fallback path of a page runs exactly
    when [page.extract_tables()] returns no table at all.  When it returns
    tables, those with a row that has a cell other than [None] are appended,
    in order, the others are dropped, and the words of the page are not
    read, even when every table is dropped. *)
Theorem fallback_iff_no_tables (page_num : nat) (tables : list table)
        (words : list token) (extracted_tables : list table) :
  (fallback_ran (fst (process_page page_num (mk_page tables words) extracted_tables))
   <-> tables = []) /\
  (forall t ts,
      process_page page_num (mk_page (t :: ts) words) extracted_tables
      = ([Call "extract_tables"],
         Ok (extracted_tables ++ filter any_row_with_value (t :: ts)))) /\
  (forall t, any_row_with_value t = true <->
             exists row s, In row t /\ In (Some s) row).
Proof.
  split; [ | split; [ reflexivity | exact any_row_with_value_iff ] ].
  unfold fallback_ran, process_page. cbn [extract_tables extract_words].
  destruct tables as [ | t ts ]; cbn [list_truthy].
  - split; [ reflexivity | intros _ ].
    destruct (group_text_into_rows words default_tolerance) as [rows | e];
      [ | right; left; reflexivity ].
    destruct (list_truthy rows); [ | right; left; reflexivity ].
    destruct (build_table_from_rows rows); right; left; reflexivity.
  - split; [ | discriminate ].
    intros [H | []]. discriminate H.
Qed.

(** C1 (as the specification states it) fails: a page whose only bordered
    table has nothing but [None] cells has no usable table, and yet its
    words are not read and it gives no table. *)
Lemma fallback_unusable_table_counterexample :
  existsb spec_usable [[[None]]] = false /\
  existsb any_row_with_value [[[None]]] = false /\
  ~ fallback_ran
      (fst (process_page 1 (mk_page [[[None]]] [word "Name" 0 30 100]) [])) /\
  process_page 1 (mk_page [[[None]]] [word "Name" 0 30 100]) []
  = ([Call "extract_tables"], Ok []) /\
  process_page 1 (mk_page [] [word "Name" 0 30 100]) []
  = ([Call "extract_tables"; Call "extract_words"; Call "group_text_into_rows";
      Call "build_table_from_rows"],
     Ok [[[Some "Name"%string]]]).
Proof.
  split; [ reflexivity | ]. split; [ reflexivity | ].
  split; [ | split; vm_compute; reflexivity ].
  intros [H | []]. discriminate H.
Qed.

Example extract_tables_from_pdf_run :
  extract_tables_from_pdf
    [mk_page [[[Some "a"%string; None]]; [[None]]] [word "x" 0 1 0];
     mk_page [] [];
     mk_page [] [word "Name" 0 30 100; word "Age" 50 70 100]]
  = ([Call "extract_tables";
      Call "extract_tables"; Call "extract_words"; Call "group_text_into_rows";
      Print "No table detected on page 2.";
      Call "extract_tables"; Call "extract_words"; Call "group_text_into_rows";
      Call "build_table_from_rows"],
     Ok [[[Some "a"%string; None]]; [[Some "Name"%string; Some "Age"%string]]]).
Proof. vm_compute. reflexivity. Qed.

(** * Further properties of the code *)

(** ** group_text_into_rows: the rows as filtered, sorted buckets *)

Lemma bucket_of_setdefault_append (y k : Z) (obj : token) (rows : rows_dict) :
  bucket_of k (setdefault_append y obj rows)
  = if (k =? y)%Z then bucket_of k rows ++ [obj] else bucket_of k rows.
Proof.
  unfold bucket_of.
  induction rows as [ | [k0 v0] rows IH ]; simpl.
  - rewrite Z.eqb_sym. destruct (k =? y)%Z; reflexivity.
  - destruct (Z.eqb_spec k0 y) as [-> | Hne]; simpl.
    + rewrite (Z.eqb_sym k y). destruct (y =? k)%Z; reflexivity.
    + destruct (Z.eqb_spec k0 k) as [-> | Hne'].
      * destruct (Z.eqb_spec k y); [ contradiction | reflexivity ].
      * exact IH.
Qed.

Lemma bucket_loop_filter (tolerance : Z) (text_objs : list token) :
  forall rows rows' k,
    bucket_loop tolerance text_objs rows = Ok rows' ->
    bucket_of k rows' = bucket_of k rows ++ filter (key_is tolerance k) text_objs.
Proof.
  induction text_objs as [ | obj rest IH ]; simpl; intros rows rows' k H.
  - injection H as <-. rewrite app_nil_r. reflexivity.
  - apply bind_Ok_inv in H as (y & Hy & H).
    rewrite (IH _ _ k H), bucket_of_setdefault_append.
    unfold key_is at 2. rewrite Hy. rewrite (Z.eqb_sym y k).
    destruct (k =? y)%Z; [ rewrite <- app_assoc | ]; reflexivity.
Qed.

Lemma bucket_loop_keys (tolerance : Z) (text_objs : list token) :
  forall rows rows' k,
    bucket_loop tolerance text_objs rows = Ok rows' ->
    (In k (map fst rows') <->
     In k (map fst rows) \/ exists t, In t text_objs /\ y_key t tolerance = Ok k).
Proof.
  induction text_objs as [ | obj rest IH ]; simpl; intros rows rows' k H.
  - injection H as <-. split; [ tauto | ].
    intros [Hin | (t & [] & _)]. exact Hin.
  - apply bind_Ok_inv in H as (y & Hy & H).
    rewrite (IH _ _ k H), setdefault_append_keys. split.
    + intros [[-> | Hin] | (t & Ht & Hk)].
      * right. exists obj. split; [ left; reflexivity | exact Hy ].
      * left. exact Hin.
      * right. exists t. split; [ right; exact Ht | exact Hk ].
    + intros [Hin | (t & [<- | Ht] & Hk)].
      * left. right. exact Hin.
      * left. left. congruence.
      * right. exists t. split; assumption.
Qed.

Lemma StronglySorted_le_NoDup_lt (l : list Z) :
  StronglySorted (le_of Z.leb) l -> NoDup l -> StronglySorted Z.lt l.
Proof.
  induction 1 as [ | a l _ IH Hall ]; intros Hnd.
  - constructor.
  - inversion Hnd as [ | ? ? Hnotin Hnd' ]; subst.
    constructor; [ exact (IH Hnd') | ].
    rewrite Forall_forall in Hall |- *. intros b Hb.
    specialize (Hall b Hb). unfold le_of in Hall. apply Z.leb_le in Hall.
    assert (a <> b) by (intros ->; contradiction).
    apply Z.le_neq. split; assumption.
Qed.

Lemma sorted_keys_ascending (l : list Z) :
  NoDup l -> StronglySorted Z.lt (sorted Z.leb l).
Proof.
  intros Hnd. apply StronglySorted_le_NoDup_lt.
  - apply Sorted_StronglySorted.
    + intros a b c Hab Hbc. unfold le_of in *.
      rewrite Z.leb_le in *. eapply Z.le_trans; eassumption.
    + apply sorted_Sorted. intros a b. rewrite !Z.leb_le.
      destruct (Z.le_ge_cases a b); [ left | right ]; assumption.
  - eapply Permutation_NoDup; [ | exact Hnd ].
    apply Permutation_sym, sorted_Permutation.
Qed.

Lemma group_text_into_rows_filtered (text_objs : list token) (tolerance : Z)
      (out : list (list token)) :
  group_text_into_rows text_objs tolerance = Ok out ->
  exists rows,
    bucket_loop tolerance text_objs [] = Ok rows /\
    Forall2 (fun y r => sorted_by_x0 (filter (key_is tolerance y) text_objs) = Ok r)
            (sorted Z.leb (map fst rows)) out.
Proof.
  intros H. apply group_text_into_rows_inv in H as (rows & Hrows & Hall).
  exists rows. split; [ exact Hrows | ].
  eapply Forall2_impl; [ | exact Hall ].
  intros y r (v & Hv & Hs).
  pose proof (bucket_loop_filter _ _ _ _ y Hrows) as Hb.
  unfold bucket_of in Hb. rewrite Hv in Hb. simpl in Hb.
  rewrite <- Hb. exact Hs.
Qed.

(** What [group_text_into_rows] returns, without the dict: for the bucket
    keys of the words in strictly ascending order, the words of each key in
    the order of the input, sorted by 'x0'. *)
Theorem group_text_into_rows_characterised (text_objs : list token) (tolerance : Z)
        (out : list (list token)) :
  group_text_into_rows text_objs tolerance = Ok out ->
  exists keys,
    StronglySorted Z.lt keys /\
    (forall y, In y keys <-> exists t, In t text_objs /\ y_key t tolerance = Ok y) /\
    Forall2 (fun y r => sorted_by_x0 (filter (key_is tolerance y) text_objs) = Ok r)
            keys out.
Proof.
  intros H. apply group_text_into_rows_filtered in H as (rows & Hrows & Hall).
  destruct (bucket_loop_inv tolerance _ _ _ Hrows (bucket_inv_nil tolerance))
    as [[Hnd _] _].
  exists (sorted Z.leb (map fst rows)).
  split; [ apply sorted_keys_ascending; exact Hnd | ].
  split; [ | exact Hall ].
  intros y. split.
  - intros Hy. apply (Permutation_in _ (sorted_Permutation Z.leb _)) in Hy.
    apply (bucket_loop_keys _ _ _ _ y Hrows) in Hy. simpl in Hy.
    destruct Hy as [[] | Hy]. exact Hy.
  - intros Hy.
    apply (Permutation_in _ (Permutation_sym (sorted_Permutation Z.leb _))).
    apply (bucket_loop_keys _ _ _ _ y Hrows). right. exact Hy.
Qed.

Lemma group_text_into_rows_characterised_witness :
  group_text_into_rows
    [word "b" 50 60 120; word "x" 0 30 100; word "a" 0 35 119] 3
  = Ok [[word "x" 0 30 100]; [word "a" 0 35 119; word "b" 50 60 120]] /\
  exists keys,
    StronglySorted Z.lt keys /\
    (forall y, In y keys <->
               exists t, In t [word "b" 50 60 120; word "x" 0 30 100; word "a" 0 35 119]
                         /\ y_key t 3 = Ok y) /\
    Forall2 (fun y r =>
               sorted_by_x0
                 (filter (key_is 3 y)
                         [word "b" 50 60 120; word "x" 0 30 100; word "a" 0 35 119])
               = Ok r)
            keys [[word "x" 0 30 100]; [word "a" 0 35 119; word "b" 50 60 120]].
Proof.
  split; [ vm_compute; reflexivity | ].
  apply (group_text_into_rows_characterised
           [word "b" 50 60 120; word "x" 0 30 100; word "a" 0 35 119] 3).
  vm_compute. reflexivity.
Defined.

(** ** Rows and bucket keys *)

Lemma key_is_true (tolerance y : Z) (t : token) :
  key_is tolerance y t = true <-> y_key t tolerance = Ok y.
Proof.
  unfold key_is. destruct (y_key t tolerance) as [k | e].
  - rewrite Z.eqb_eq. split; [ intros ->; reflexivity | intros H; injection H; trivial ].
  - split; discriminate.
Qed.

Lemma group_text_into_rows_row_filter (text_objs : list token) (tolerance : Z)
      (out : list (list token)) (r : list token) :
  group_text_into_rows text_objs tolerance = Ok out -> In r out ->
  exists y, sorted_by_x0 (filter (key_is tolerance y) text_objs) = Ok r.
Proof.
  intros H Hr.
  destruct (group_text_into_rows_filtered _ _ _ H) as (rows & _ & Hall).
  clear H. revert Hr. induction Hall as [ | y r' ks out Hy _ IH ]; simpl.
  - intros [].
  - intros [-> | Hr]; [ exists y; exact Hy | exact (IH Hr) ].
Qed.

(** Two words are put in the same row exactly when they have the same
    bucket key: a word of the input lies in the row of another word if and
    only if its key is that word's key. *)
Theorem same_row_iff_same_key (text_objs : list token) (tolerance : Z)
        (out : list (list token)) (r : list token) (t1 t2 : token) :
  group_text_into_rows text_objs tolerance = Ok out ->
  In r out -> In t1 r -> In t2 text_objs ->
  (In t2 r <-> y_key t2 tolerance = y_key t1 tolerance).
Proof.
  intros H Hr Ht1 Ht2.
  destruct (group_text_into_rows_row_filter _ _ _ _ H Hr) as (y & Hs).
  apply sorted_by_x0_Permutation in Hs.
  assert (Hmem : forall t, In t r <-> In t text_objs /\ y_key t tolerance = Ok y).
  { intros t. rewrite <- key_is_true, <- filter_In. split; intros Ht.
    - exact (Permutation_in _ Hs Ht).
    - exact (Permutation_in _ (Permutation_sym Hs) Ht). }
  apply Hmem in Ht1 as [_ Hk1]. rewrite Hmem, Hk1. tauto.
Qed.

Lemma same_row_iff_same_key_witness :
  group_text_into_rows
    [word "b" 50 60 120; word "x" 0 30 100; word "a" 0 35 119] 3
  = Ok [[word "x" 0 30 100]; [word "a" 0 35 119; word "b" 50 60 120]] /\
  (In (word "b" 50 60 120) [word "a" 0 35 119; word "b" 50 60 120] <->
   y_key (word "b" 50 60 120) 3 = y_key (word "a" 0 35 119) 3).
Proof.
  split; [ vm_compute; reflexivity | ].
  apply (same_row_iff_same_key
           [word "b" 50 60 120; word "x" 0 30 100; word "a" 0 35 119] 3
           [[word "x" 0 30 100]; [word "a" 0 35 119; word "b" 50 60 120]]).
  - vm_compute. reflexivity.
  - right; left; reflexivity.
  - left; reflexivity.
  - left; reflexivity.
Defined.

(** ** sorted(row, key=x0): order and stability *)

Section Stability.
Context {A : Type} (leb : A -> A -> bool) (P : A -> bool).
Hypothesis P_class : forall a b, P a = true -> P b = true -> leb a b = true.

Lemma filter_insert_sorted (x : A) (l : list A) :
  filter P (insert_sorted leb x l) = filter P (x :: l).
Proof.
  induction l as [ | y l IH ]; simpl.
  - reflexivity.
  - destruct (leb x y) eqn:Hxy; [ reflexivity | ].
    simpl. rewrite IH. simpl.
    destruct (P x) eqn:Hx, (P y) eqn:Hy; try reflexivity.
    rewrite (P_class x y Hx Hy) in Hxy. discriminate Hxy.
Qed.

Lemma filter_sorted (l : list A) : filter P (sorted leb l) = filter P l.
Proof.
  induction l as [ | x l IH ]; simpl.
  - reflexivity.
  - rewrite filter_insert_sorted. simpl. rewrite IH. reflexivity.
Qed.
End Stability.

Lemma key_leb_trans (a b c : Q * token) :
  le_of key_leb a b -> le_of key_leb b c -> le_of key_leb a c.
Proof.
  unfold le_of, key_leb. rewrite !Qle_bool_iff. apply Qle_trans.
Qed.

Lemma filter_x0_is_map_snd (q : Q) (l : list (Q * token)) :
  Forall (fun p => x0 (snd p) = Some (fst p)) l ->
  filter (x0_is q) (map snd l) = map snd (filter (fun p => Qeq_bool (fst p) q) l).
Proof.
  induction 1 as [ | p l Hp _ IH ]; simpl.
  - reflexivity.
  - unfold x0_is at 1. rewrite Hp.
    destruct (Qeq_bool (fst p) q); simpl; rewrite IH; reflexivity.
Qed.

Lemma StronglySorted_map_snd (l : list (Q * token)) :
  Forall (fun p => x0 (snd p) = Some (fst p)) l ->
  StronglySorted (le_of key_leb) l -> StronglySorted x0_le (map snd l).
Proof.
  intros Hl Hs. induction Hs as [ | p l _ IH Hall ]; simpl.
  - constructor.
  - inversion Hl as [ | ? ? Hp Hl' ]; subst.
    constructor; [ exact (IH Hl') | ].
    rewrite Forall_forall in Hall, Hl' |- *. intros t Ht.
    apply in_map_iff in Ht as (p' & <- & Hp').
    unfold x0_le. rewrite Hp, (Hl' p' Hp').
    apply Qle_bool_iff. exact (Hall p' Hp').
Qed.

Lemma sorted_by_x0_StronglySorted (v r : list token) :
  sorted_by_x0 v = Ok r -> StronglySorted x0_le r.
Proof.
  intros H. apply sorted_by_x0_inv in H as (keyed & Hk & ->).
  apply decorated_map_snd in Hk as [_ Hk].
  apply StronglySorted_map_snd.
  - eapply Permutation_Forall; [ | exact Hk ].
    apply Permutation_sym, sorted_Permutation.
  - apply Sorted_StronglySorted; [ exact key_leb_trans | ].
    apply sorted_Sorted. exact key_leb_total.
Qed.

Lemma sorted_by_x0_filter (v r : list token) (q : Q) :
  sorted_by_x0 v = Ok r -> filter (x0_is q) r = filter (x0_is q) v.
Proof.
  intros H. apply sorted_by_x0_inv in H as (keyed & Hk & ->).
  apply decorated_map_snd in Hk as [<- Hk].
  assert (Hk' : Forall (fun p => x0 (snd p) = Some (fst p)) (sorted key_leb keyed)).
  { eapply Permutation_Forall; [ | exact Hk ].
    apply Permutation_sym, sorted_Permutation. }
  rewrite (filter_x0_is_map_snd q _ Hk'), (filter_x0_is_map_snd q _ Hk).
  rewrite filter_sorted; [ reflexivity | ].
  intros a b Ha Hb. unfold key_leb. apply Qle_bool_iff.
  apply Qeq_bool_iff in Ha, Hb. rewrite Ha, Hb. apply Qle_refl.
Qed.

(** Every row of the clustering is in ascending order of 'x0', and among
    the words of a row that have the same 'x0' the order of the input is
    kept. *)
Theorem rows_sorted_left_to_right (text_objs : list token) (tolerance : Z)
        (out : list (list token)) (r : list token) :
  group_text_into_rows text_objs tolerance = Ok out -> In r out ->
  StronglySorted x0_le r /\
  exists y, forall q,
      filter (x0_is q) r
      = filter (fun t => x0_is q t && key_is tolerance y t) text_objs.
Proof.
  intros H Hr.
  destruct (group_text_into_rows_row_filter _ _ _ _ H Hr) as (y & Hs).
  split; [ exact (sorted_by_x0_StronglySorted _ _ Hs) | ].
  exists y. intros q. rewrite (sorted_by_x0_filter _ _ q Hs). clear.
  induction text_objs as [ | t l IH ]; simpl.
  - reflexivity.
  - destruct (key_is tolerance y t); simpl.
    + rewrite andb_true_r. destruct (x0_is q t); rewrite IH; reflexivity.
    + rewrite andb_false_r. exact IH.
Qed.

Lemma rows_sorted_left_to_right_witness :
  group_text_into_rows
    [word "b" 50 60 120; word "x" 0 30 100; word "a" 0 35 119] 3
  = Ok [[word "x" 0 30 100]; [word "a" 0 35 119; word "b" 50 60 120]] /\
  StronglySorted x0_le [word "a" 0 35 119; word "b" 50 60 120].
Proof.
  split; [ vm_compute; reflexivity | ].
  apply (rows_sorted_left_to_right
           [word "b" 50 60 120; word "x" 0 30 100; word "a" 0 35 119] 3
           [[word "x" 0 30 100]; [word "a" 0 35 119; word "b" 50 60 120]]).
  - vm_compute. reflexivity.
  - right; left; reflexivity.
Defined.

(** ** group_text_into_rows: which exception *)







(** With a tolerance of zero the clustering returns for the empty list
    only: on any other input the first word decides, the division raises
    [ZeroDivisionError] if it has a 'top', the lookup raises [KeyError]
    if not. *)
Theorem group_text_into_rows_zero_tolerance (text_objs : list token) :
  group_text_into_rows text_objs 0
  = match text_objs with
    | [] => Ok []
    | t :: _ => match top t with
                | Some _ => Raise ZeroDivisionError
                | None => Raise (KeyError (StrKey "top"))
                end
    end.
Proof.
  destruct text_objs as [ | t rest ]; [ reflexivity | ].
  unfold group_text_into_rows. simpl. unfold y_key.
  destruct (top t); reflexivity.
Qed.


(** ** The fallback path: when it returns, and the shape of its table *)

Lemma scan_word_Ok_text (st st' : scan_state) (w : token) :
  scan_word st w = Ok st' -> text w <> None.
Proof.
  unfold scan_word. intros H.
  apply bind_Ok_inv in H as (b & _ & H).
  apply bind_Ok_inv in H as (st1 & H & _).
  destruct (text w); [ discriminate | destruct b; discriminate H ].
Qed.

Lemma scan_loop_Ok_text (row : list token) :
  forall st st', scan_loop row st = Ok st' -> Forall (fun w => text w <> None) row.
Proof.
  induction row as [ | w rest IH ]; simpl; intros st st' H.
  - constructor.
  - apply bind_Ok_inv in H as (st1 & Hw & H).
    constructor; [ exact (scan_word_Ok_text _ _ _ Hw) | exact (IH _ _ H) ].
Qed.

Lemma build_table_from_rows_Ok_text (rows : list (list token)) (t : list (list string)) :
  build_table_from_rows rows = Ok t ->
  Forall (fun w => text w <> None) (List.concat rows).
Proof.
  unfold build_table_from_rows. intros H. apply mapM_Ok_Forall2 in H.
  induction H as [ | row cells rows t Hrow _ IH ]; simpl.
  - constructor.
  - apply Forall_app. split; [ | exact IH ].
    unfold build_row in Hrow. apply bind_Ok_inv in Hrow as (st & Hst & _).
    exact (scan_loop_Ok_text _ _ _ Hst).
Qed.

Lemma heuristic_core_Ok_complete (text_objs : list token) (tolerance : Z)
      (t : list (list string)) :
  heuristic_core text_objs tolerance = Ok t ->
  Forall complete text_objs /\ (text_objs <> [] -> tolerance <> 0%Z).
Proof.
  intros H. pose proof (heuristic_core_Ok_positions _ _ _ H) as Hpos.
  unfold heuristic_core in H.
  apply bind_Ok_inv in H as (rows & Hrows & Ht).
  pose proof (group_text_into_rows_Permutation _ _ _ Hrows) as Hperm.
  pose proof (Permutation_Forall Hperm (build_table_from_rows_Ok_text _ _ Ht)) as Htext.
  split.
  - rewrite Forall_forall in Hpos, Htext |- *. intros w Hw.
    specialize (Hpos w Hw). specialize (Htext w Hw).
    unfold lacks_position in Hpos. unfold complete.
    repeat split; try assumption; intros E; apply Hpos; tauto.
  - intros Hne ->. destruct text_objs as [ | w rest ]; [ contradiction | ].
    unfold group_text_into_rows in Hrows. simpl in Hrows. unfold y_key in Hrows.
    destruct (top w); discriminate Hrows.
Qed.


Lemma length_le_concat {A : Type} (l : list (list A)) :
  Forall (fun x => x <> []) l -> (List.length l <= List.length (List.concat l))%nat.
Proof.
  induction 1 as [ | x l Hx _ IH ]; simpl.
  - apply le_n.
  - rewrite length_app. destruct x as [ | a x ]; [ contradiction | ].
    simpl. apply le_n_S. eapply Nat.le_trans; [ exact IH | apply Nat.le_add_l ].
Qed.

Lemma rows_nonempty (text_objs : list token) (tolerance : Z)
      (out : list (list token)) :
  group_text_into_rows text_objs tolerance = Ok out ->
  Forall (fun r => r <> []) out.
Proof.
  intros H. rewrite Forall_forall. intros r Hr.
  destruct (group_text_into_rows_row _ _ _ _ H Hr) as (y & v & Hs & Hne & _).
  apply sorted_by_x0_Permutation in Hs.
  intros ->. apply Permutation_nil in Hs. contradiction.
Qed.

Lemma cell_groups_nil (row : list token) : cell_groups row = [] -> row = [].
Proof.
  destruct row as [ | w rest ]; [ reflexivity | ].
  simpl. intros H. pose proof (cell_groups_from_length rest w [w]) as Hl.
  rewrite H in Hl. discriminate Hl.
Qed.

(** The table of the fallback path has no empty row: a row of the table
    has at least one cell.  It has no more rows than cells and no more
    cells than the page has words, and it is empty only for a page without
    words. *)
Theorem heuristic_core_table_shape (text_objs : list token) (tolerance : Z)
        (t : list (list string)) :
  heuristic_core text_objs tolerance = Ok t ->
  Forall (fun row => row <> []) t /\
  (List.length t <= List.length (List.concat t))%nat /\
  (List.length (List.concat t) <= List.length text_objs)%nat /\
  (t = [] <-> text_objs = []).
Proof.
  intros H. destruct (heuristic_core_Ok_complete _ _ _ H) as [Hc Htol].
  destruct text_objs as [ | w rest ].
  { injection H as <-. repeat split; try constructor; trivial. }
  specialize (Htol ltac:(discriminate)).
  destruct (heuristic_core_cells _ _ Htol Hc) as (rows & Hrows & Hperm & Hcore).
  rewrite Hcore in H. injection H as <-.
  pose proof (rows_nonempty _ _ _ Hrows) as Hne.
  assert (Hrowsne : Forall (fun row : list string => row <> [])
                           (map (fun row => map cell_text (cell_groups row)) rows)).
  { rewrite Forall_forall. intros cells Hcells.
    apply in_map_iff in Hcells as (row & <- & Hrow).
    rewrite Forall_forall in Hne. specialize (Hne row Hrow).
    intros E. apply map_eq_nil in E. apply cell_groups_nil in E. contradiction. }
  split; [ exact Hrowsne | ].
  split; [ apply length_le_concat; exact Hrowsne | ].
  split.
  - rewrite <- (Permutation_length Hperm), <- concat_cell_groups.
    assert (Hlen : List.length (List.concat (map (fun row => map cell_text (cell_groups row)) rows))
                   = List.length (List.concat (map cell_groups rows))).
    { clear. induction rows as [ | row rows IH ]; simpl; [ reflexivity | ].
      rewrite !length_app, length_map, IH. reflexivity. }
    rewrite Hlen. apply length_le_concat.
    clear. induction rows as [ | row rows IH ]; simpl; [ constructor | ].
    apply Forall_app. split; [ apply cell_groups_nonempty | exact IH ].
  - split; [ | discriminate ].
    intros E. apply map_eq_nil in E. subst rows.
    simpl in Hperm. apply Permutation_nil in Hperm. discriminate Hperm.
Qed.

Lemma heuristic_core_table_shape_witness :
  heuristic_core
    [word "Name" 0 30 100; word "Age" 50 70 100; word "Alice" 0 35 120] 3
  = Ok [["Name"; "Age"]; ["Alice"]]%string /\
  Forall (fun row : list string => row <> []) [["Name"; "Age"]; ["Alice"]]%string /\
  (List.length [["Name"; "Age"]; ["Alice"]]%string
   <= List.length (List.concat [["Name"; "Age"]; ["Alice"]]%string))%nat /\
  (List.length (List.concat [["Name"; "Age"]; ["Alice"]]%string)
   <= List.length [word "Name" 0 30 100; word "Age" 50 70 100; word "Alice" 0 35 120])%nat /\
  ([["Name"; "Age"]; ["Alice"]]%string = [] <->
   [word "Name" 0 30 100; word "Age" 50 70 100; word "Alice" 0 35 120] = []).
Proof.
  split; [ vm_compute; reflexivity | ].
  apply (heuristic_core_table_shape
           [word "Name" 0 30 100; word "Age" 50 70 100; word "Alice" 0 35 120] 3).
  vm_compute. reflexivity.
Defined.

(** ** build_table_from_rows: what a cell looks like *)

Lemma rstrip_idempotent (s : string) : PyStr.rstrip (PyStr.rstrip s) = PyStr.rstrip s.
Proof.
  induction s as [ | c s IH ]; simpl; [ reflexivity | ].
  destruct (PyStr.rstrip s) as [ | d r ] eqn:E.
  - destruct (PyStr.isspace c) eqn:Hc; simpl; [ reflexivity | ].
    rewrite Hc. reflexivity.
  - simpl. simpl in IH. rewrite IH. reflexivity.
Qed.

Lemma lstrip_starts_clean (s : string) : starts_clean (PyStr.lstrip s) = true.
Proof.
  induction s as [ | c s IH ]; simpl; [ reflexivity | ].
  destruct (PyStr.isspace c) eqn:Hc; [ exact IH | ].
  simpl. rewrite Hc. reflexivity.
Qed.

Lemma starts_clean_lstrip (s : string) : starts_clean s = true -> PyStr.lstrip s = s.
Proof.
  destruct s as [ | c s ]; simpl; [ reflexivity | ].
  destruct (PyStr.isspace c); [ discriminate | reflexivity ].
Qed.

Lemma rstrip_starts_clean (s : string) :
  starts_clean s = true -> starts_clean (PyStr.rstrip s) = true.
Proof.
  destruct s as [ | c s ]; simpl; [ reflexivity | ].
  intros Hc. destruct (PyStr.rstrip s).
  - destruct (PyStr.isspace c) eqn:E; [ reflexivity | ].
    simpl. rewrite E. reflexivity.
  - exact Hc.
Qed.

Lemma strip_stripped (s : string) : stripped (PyStr.strip s).
Proof.
  unfold stripped, PyStr.strip.
  rewrite (starts_clean_lstrip (PyStr.rstrip (PyStr.lstrip s))).
  - apply rstrip_idempotent.
  - apply rstrip_starts_clean, lstrip_starts_clean.
Qed.

Lemma flush_stripped (st : scan_state) :
  Forall stripped (row_data st) -> Forall stripped (flush st).
Proof.
  intros H. unfold flush. destruct (PyStr.truthy (current_cell st)); [ | exact H ].
  apply Forall_app. split; [ exact H | ].
  constructor; [ apply strip_stripped | constructor ].
Qed.

Lemma scan_word_stripped (st st' : scan_state) (w : token) :
  scan_word st w = Ok st' ->
  Forall stripped (row_data st) -> Forall stripped (row_data st').
Proof.
  unfold scan_word. intros H Hst.
  apply bind_Ok_inv in H as (b & _ & H).
  apply bind_Ok_inv in H as (st1 & H1 & H).
  apply bind_Ok_inv in H as (r & _ & H). injection H as <-. simpl.
  destruct b; apply bind_Ok_inv in H1 as (s & _ & H1); injection H1 as <-; simpl.
  - apply flush_stripped. exact Hst.
  - exact Hst.
Qed.

Lemma scan_loop_stripped (row : list token) :
  forall st st', scan_loop row st = Ok st' ->
                 Forall stripped (row_data st) -> Forall stripped (row_data st').
Proof.
  induction row as [ | w rest IH ]; simpl; intros st st' H Hst.
  - injection H as <-. exact Hst.
  - apply bind_Ok_inv in H as (st1 & Hw & H).
    exact (IH _ _ H (scan_word_stripped _ _ _ Hw Hst)).
Qed.

(** No cell of a table built by [build_table_from_rows] begins or ends with
    whitespace, whatever the texts of the words are: stripping a cell again
    changes nothing. *)
Theorem cells_have_no_outer_whitespace (rows : list (list token))
        (t : list (list string)) :
  build_table_from_rows rows = Ok t -> Forall (Forall stripped) t.
Proof.
  unfold build_table_from_rows. intros H. apply mapM_Ok_Forall2 in H.
  induction H as [ | row cells rows t Hrow _ IH ]; constructor; [ | exact IH ].
  unfold build_row in Hrow. apply bind_Ok_inv in Hrow as (st & Hst & Hcells).
  injection Hcells as <-. apply flush_stripped.
  apply (scan_loop_stripped _ _ _ Hst). constructor.
Qed.

Lemma cells_have_no_outer_whitespace_witness :
  build_table_from_rows [[word "  Name " 0 30 100; word " Age  " 50 70 100]]
  = Ok [["Name"; "Age"]]%string /\
  Forall (Forall stripped) [["Name"; "Age"]]%string.
Proof.
  split; [ vm_compute; reflexivity | ].
  apply (cells_have_no_outer_whitespace
           [[word "  Name " 0 30 100; word " Age  " 50 70 100]]).
  vm_compute. reflexivity.
Defined.

(** ** build_table_from_rows: what the cells depend on *)

Lemma to_double_Qeq (x y : Q) : x == y -> to_double x = to_double y.
Proof. intros H. unfold to_double. rewrite (Qred_complete x y H). reflexivity. Qed.

Lemma float_sub_shift (dx a lx : Q) :
  float_sub (dx + a) (dx + lx) = float_sub a lx.
Proof. unfold float_sub. apply to_double_Qeq. ring. Qed.

Lemma scan_word_move (dx : Q) (new_top : token -> option Q)
      (st : scan_state) (w : token) :
  scan_word (move_state dx st) (move dx new_top w)
  = move_result dx (scan_word st w).
Proof.
  destruct st as [rd cc [lx | ]]; destruct w as [[s | ] [a | ] [r | ] tp];
    unfold scan_word, move_state, move; cbn -[Qgtb Qplus Qminus float_sub];
    try rewrite float_sub_shift;
    try (destruct (Qgtb (float_sub a lx) col_tolerance)); reflexivity.
Qed.

Lemma scan_loop_move (dx : Q) (new_top : token -> option Q) (row : list token) :
  forall st,
    scan_loop (map (move dx new_top) row) (move_state dx st)
    = move_result dx (scan_loop row st).
Proof.
  induction row as [ | w rest IH ]; simpl; intros st.
  - reflexivity.
  - rewrite scan_word_move. destruct (scan_word st w) as [st1 | e]; simpl.
    + apply IH.
    + reflexivity.
Qed.

(** The cells of a row depend on the texts and on the horizontal gaps
    only: moving all the words of a row sideways by the same amount, and
    giving them any 'top' (or none), changes neither the cells nor the
    exception raised. *)
Theorem build_table_from_rows_translation_invariant (dx : Q) (new_top : token -> option Q)
        (rows : list (list token)) :
  build_table_from_rows (map (map (move dx new_top)) rows)
  = build_table_from_rows rows.
Proof.
  unfold build_table_from_rows.
  induction rows as [ | row rows IH ]; simpl; [ reflexivity | ].
  rewrite IH. f_equal. unfold build_row.
  change (mk_scan [] EmptyString None)
    with (move_state dx (mk_scan [] EmptyString None)) at 1.
  rewrite scan_loop_move.
  destruct (scan_loop row (mk_scan [] EmptyString None)) as [st | e]; reflexivity.
Qed.

(** ** build_table_from_rows: rows without and with nothing but boundaries *)

Lemma cell_groups_from_all_gaps (row : list token) :
  forall prev cur,
    all_gaps true prev row = true ->
    cell_groups_from prev cur row = cur :: map (fun t => [t]) row.
Proof.
  induction row as [ | w rest IH ]; simpl; intros prev cur H.
  - reflexivity.
  - apply andb_true_iff in H as [Hg H]. apply eqb_prop in Hg.
    rewrite Hg, (IH _ _ H). reflexivity.
Qed.

Lemma cell_groups_from_no_gap (row : list token) :
  forall prev cur,
    all_gaps false prev row = true ->
    cell_groups_from prev cur row = [cur ++ row].
Proof.
  induction row as [ | w rest IH ]; simpl; intros prev cur H.
  - rewrite app_nil_r. reflexivity.
  - apply andb_true_iff in H as [Hg H]. apply eqb_prop in Hg.
    rewrite Hg, (IH _ _ H), <- app_assoc. reflexivity.
Qed.

(** On a row of well-formed words: when for every word after the first
    the float difference between its [x0] and the [x1] of the word before
    it is greater than 10, each word is a cell of its own, its stripped
    text; when it is so for no word, the whole row is one cell, the stripped
    texts joined by single blanks. *)
Theorem build_row_all_or_no_boundaries (w : token) (rest : list token) :
  Forall complete (w :: rest) ->
  (all_gaps true w rest = true ->
   build_row (w :: rest) = Ok (map (fun t => PyStr.strip (text_of t)) (w :: rest))) /\
  (all_gaps false w rest = true ->
   build_row (w :: rest) = Ok [PyStr.strip (joined (w :: rest))]) /\
  (forall p q a b, x1 p = Some b -> x0 q = Some a ->
     (gap_exceeds p q = true <-> 10 < float_sub a b)).
Proof.
  intros Hrow.
  split; [ | split; [ | intros p q a b Hp Hq; apply (gap_exceeds_iff p q a b Hp Hq) ] ];
    rewrite (build_row_cells _ Hrow); intros H; simpl cell_groups.
  - rewrite (cell_groups_from_all_gaps _ _ _ H).
    change ([w] :: map (fun t => [t]) rest) with (map (fun t => [t]) (w :: rest)).
    rewrite map_map. f_equal. apply map_ext. intros t.
    rewrite cell_text_joined by discriminate. reflexivity.
  - rewrite (cell_groups_from_no_gap _ _ _ H). simpl map.
    rewrite cell_text_joined by discriminate. reflexivity.
Qed.

Lemma build_row_all_or_no_boundaries_witness :
  Forall complete [word "u" 0 (to_double (3 # 10)) 100;
                   word "v" (to_double (103 # 10)) 12 100] /\
  all_gaps false (word "u" 0 (to_double (3 # 10)) 100)
           [word "v" (to_double (103 # 10)) 12 100] = true /\
  build_row [word "u" 0 (to_double (3 # 10)) 100;
             word "v" (to_double (103 # 10)) 12 100]
  = Ok [PyStr.strip (joined [word "u" 0 (to_double (3 # 10)) 100;
                             word "v" (to_double (103 # 10)) 12 100])].
Proof.
  assert (H : Forall complete [word "u" 0 (to_double (3 # 10)) 100;
                               word "v" (to_double (103 # 10)) 12 100]).
  { repeat constructor; discriminate. }
  split; [ exact H | ]. split; [ vm_compute; reflexivity | ].
  apply (build_row_all_or_no_boundaries
           (word "u" 0 (to_double (3 # 10)) 100)
           [word "v" (to_double (103 # 10)) 12 100] H).
  vm_compute. reflexivity.
Defined.


(** ** extract_tables_from_pdf: the run over the pages *)

Lemma pages_loop_cons_Ok (page_num : nat) (p : page) (rest : list page)
      (extracted extracted' : list table) :
  snd (process_page page_num p extracted) = Ok extracted' ->
  snd (pages_loop page_num (p :: rest) extracted)
  = snd (pages_loop (S page_num) rest extracted').
Proof.
  simpl. destruct (process_page page_num p extracted) as [tr [ex | e]]; simpl;
    intros H; [ | discriminate H ].
  injection H as ->.
  destruct (pages_loop (S page_num) rest extracted'). reflexivity.
Qed.

Lemma pages_loop_cons_Raise (page_num : nat) (p : page) (rest : list page)
      (extracted : list table) (e : exn) :
  snd (process_page page_num p extracted) = Raise e ->
  snd (pages_loop page_num (p :: rest) extracted) = Raise e.
Proof.
  simpl. destruct (process_page page_num p extracted) as [tr [ex | e']]; simpl;
    intros H; [ discriminate H | exact H ].
Qed.

Lemma process_page_fallback (page_num : nat) (p : page) (extracted : list table) :
  extract_tables p = [] ->
  snd (process_page page_num p extracted)
  = match heuristic_core (extract_words p) default_tolerance with
    | Ok [] => Ok extracted
    | Ok (row :: t) => Ok (extracted ++ [map (map Some) (row :: t)])
    | Raise e => Raise e
    end.
Proof.
  intros Hnone. unfold process_page, heuristic_core. rewrite Hnone. cbn [list_truthy].
  destruct (group_text_into_rows (extract_words p) default_tolerance)
    as [rows | e] eqn:Hrows; [ | reflexivity ].
  cbn [bind].
  destruct rows as [ | r rows ]; [ reflexivity | ].
  cbn [list_truthy].
  destruct (build_table_from_rows (r :: rows)) as [t | e] eqn:Ht; [ | reflexivity ].
  destruct t as [ | row t ]; [ | reflexivity ].
  unfold build_table_from_rows in Ht. simpl in Ht.
  destruct (build_row r); simpl in Ht; [ | discriminate Ht ].
  destruct (mapM build_row rows); discriminate Ht.
Qed.

Lemma process_page_readable (page_num : nat) (p : page) (extracted : list table) :
  readable p ->
  snd (process_page page_num p extracted) = Ok (extracted ++ page_tables p).
Proof.
  intros Hp. unfold page_tables.
  destruct (extract_tables p) as [ | t ts ] eqn:Htables.
  - rewrite (process_page_fallback _ _ _ Htables). cbn [list_truthy].
    destruct Hp as [Hp | Hp]; [ rewrite Htables in Hp; contradiction | ].
    destruct (heuristic_core_cells (extract_words p) default_tolerance) as (rows & _ & _ & H);
      [ discriminate | exact Hp | ].
    rewrite H.
    destruct (map (fun row => map cell_text (cell_groups row)) rows);
      [ rewrite app_nil_r | ]; reflexivity.
  - unfold process_page. rewrite Htables. reflexivity.
Qed.

(** When every page has bordered tables or well-formed words, the run
    raises nothing and returns, page after page in the order of the
    document, the tables of each page: its bordered tables that have a cell
    other than [None], or else the one table of its words if it has
    words, or else nothing. *)
Theorem extract_tables_from_pdf_readable (pages : list page) :
  Forall readable pages ->
  snd (extract_tables_from_pdf pages) = Ok (flat_map page_tables pages).
Proof.
  unfold extract_tables_from_pdf.
  change (flat_map page_tables pages) with ([] ++ flat_map page_tables pages).
  generalize (@nil table) as extracted. generalize 1%nat as page_num.
  intros page_num extracted H. revert page_num extracted.
  induction H as [ | p rest Hp _ IH ]; intros page_num extracted.
  - simpl. rewrite app_nil_r. reflexivity.
  - rewrite (pages_loop_cons_Ok _ _ _ _ _ (process_page_readable page_num p extracted Hp)).
    rewrite IH. simpl. rewrite app_assoc. reflexivity.
Qed.

Lemma extract_tables_from_pdf_readable_witness :
  Forall readable
         [mk_page [[[Some "a"%string; None]]; [[None]]] [mk_token None None None None];
          mk_page [] [];
          mk_page [] [word "Name" 0 30 100; word "Age" 50 70 100]] /\
  snd (extract_tables_from_pdf
         [mk_page [[[Some "a"%string; None]]; [[None]]] [mk_token None None None None];
          mk_page [] [];
          mk_page [] [word "Name" 0 30 100; word "Age" 50 70 100]])
  = Ok (flat_map page_tables
         [mk_page [[[Some "a"%string; None]]; [[None]]] [mk_token None None None None];
          mk_page [] [];
          mk_page [] [word "Name" 0 30 100; word "Age" 50 70 100]]).
Proof.
  assert (H : Forall readable
         [mk_page [[[Some "a"%string; None]]; [[None]]] [mk_token None None None None];
          mk_page [] [];
          mk_page [] [word "Name" 0 30 100; word "Age" 50 70 100]]).
  { constructor; [ left; discriminate | ].
    constructor; [ right; constructor | ].
    constructor; [ right; repeat constructor; discriminate | constructor ]. }
  split; [ exact H | ].
  apply (extract_tables_from_pdf_readable _ H).
Defined.

Lemma heuristic_core_first_cell (text_objs : list token) (tolerance : Z)
      (row : list string) (t : list (list string)) :
  heuristic_core text_objs tolerance = Ok (row :: t) -> row <> [].
Proof.
  intros H. destruct (heuristic_core_Ok_complete _ _ _ H) as [Hc Htol].
  destruct text_objs as [ | w rest ]; [ discriminate H | ].
  specialize (Htol ltac:(discriminate)).
  destruct (heuristic_core_cells _ _ Htol Hc) as (rows & Hrows & _ & Hcore).
  rewrite Hcore in H.
  destruct rows as [ | r rows ]; [ discriminate H | ].
  simpl in H. injection H as <- _.
  pose proof (rows_nonempty _ _ _ Hrows) as Hne.
  inversion Hne as [ | ? ? Hr _ ]; subst.
  intros E. apply map_eq_nil in E. apply cell_groups_nil in E. contradiction.
Qed.

Lemma process_page_usable (page_num : nat) (p : page) (extracted extracted' : list table) :
  snd (process_page page_num p extracted) = Ok extracted' ->
  Forall (fun t => any_row_with_value t = true) extracted ->
  Forall (fun t => any_row_with_value t = true) extracted'.
Proof.
  intros H Hex. destruct (extract_tables p) as [ | t ts ] eqn:Htables.
  - rewrite (process_page_fallback _ _ _ Htables) in H.
    destruct (heuristic_core (extract_words p) default_tolerance)
      as [[ | row t] | e] eqn:Hcore; try discriminate H.
    + injection H as <-. exact Hex.
    + injection H as <-. apply Forall_app. split; [ exact Hex | ].
      constructor; [ | constructor ].
      apply any_row_with_value_iff.
      pose proof (heuristic_core_first_cell _ _ _ _ Hcore) as Hrow.
      destruct row as [ | c row ]; [ contradiction | ].
      exists (map Some (c :: row)), c. split; left; reflexivity.
  - unfold process_page in H. rewrite Htables in H. cbn [list_truthy snd] in H.
    injection H as <-. apply Forall_app. split; [ exact Hex | ].
    rewrite Forall_forall. intros t' Ht'.
    change (In t' (filter any_row_with_value (t :: ts))) in Ht'.
    apply filter_In in Ht'. tauto.
Qed.

Lemma extract_tables_from_pdf_usable (pages : list page) (tables : list table) :
  snd (extract_tables_from_pdf pages) = Ok tables ->
  Forall (fun t => any_row_with_value t = true) tables.
Proof.
  unfold extract_tables_from_pdf.
  assert (Hnil : Forall (fun t => any_row_with_value t = true) (@nil table))
    by constructor.
  revert Hnil. generalize (@nil table) as extracted. generalize 1%nat as page_num.
  induction pages as [ | p rest IH ]; intros page_num extracted Hex H.
  - simpl in H. injection H as <-. exact Hex.
  - destruct (snd (process_page page_num p extracted)) as [ex' | e] eqn:Hp.
    + rewrite (pages_loop_cons_Ok _ _ _ _ _ Hp) in H.
      exact (IH _ _ (process_page_usable _ _ _ _ Hp Hex) H).
    + rewrite (pages_loop_cons_Raise _ _ _ _ _ Hp) in H. discriminate H.
Qed.

(** Every table that a run returns has a row with a cell other than
    [None]: the bordered tables without one are dropped, and the table of
    the fallback path, when there is one, has a first row with a first
    cell. *)
Theorem extracted_tables_have_a_value (pages : list page) (tables : list table) :
  snd (extract_tables_from_pdf pages) = Ok tables ->
  Forall (fun t => exists row s, In row t /\ In (Some s) row) tables.
Proof.
  intros H. apply extract_tables_from_pdf_usable in H.
  eapply Forall_impl; [ | exact H ].
  intros t Ht. apply any_row_with_value_iff. exact Ht.
Qed.

Lemma extracted_tables_have_a_value_witness :
  snd (extract_tables_from_pdf
         [mk_page [[[Some "a"%string; None]]; [[None]]] [];
          mk_page [] [word "Name" 0 30 100]])
  = Ok [[[Some "a"%string; None]]; [[Some "Name"%string]]] /\
  Forall (fun t : table => exists row s, In row t /\ In (Some s) row)
         [[[Some "a"%string; None]]; [[Some "Name"%string]]].
Proof.
  split; [ vm_compute; reflexivity | ].
  apply (extracted_tables_have_a_value
           [mk_page [[[Some "a"%string; None]]; [[None]]] [];
            mk_page [] [word "Name" 0 30 100]]).
  vm_compute. reflexivity.
Defined.

Lemma process_page_not_readable (page_num : nat) (p : page) (extracted : list table) :
  ~ readable p -> exists e, snd (process_page page_num p extracted) = Raise e.
Proof.
  intros Hp. destruct (extract_tables p) as [ | t ts ] eqn:Htables.
  - rewrite (process_page_fallback _ _ _ Htables).
    destruct (heuristic_core (extract_words p) default_tolerance) as [t | e] eqn:Hcore.
    + exfalso. apply Hp. right.
      exact (proj1 (heuristic_core_Ok_complete _ _ _ Hcore)).
    + exists e. reflexivity.
  - exfalso. apply Hp. left. rewrite Htables. discriminate.
Qed.

(** One page that cannot be read ends the whole run: when some page has no
    bordered table and a word without one of its four keys, the run raises
    and returns no table at all, not even those of the pages before. *)
Theorem extract_tables_from_pdf_aborts (pages : list page) (p : page) :
  In p pages -> ~ readable p ->
  exists e, snd (extract_tables_from_pdf pages) = Raise e.
Proof.
  intros Hin Hp. unfold extract_tables_from_pdf.
  generalize (@nil table) as extracted. generalize 1%nat as page_num.
  induction pages as [ | p' rest IH ]; intros page_num extracted; [ destruct Hin | ].
  destruct (snd (process_page page_num p' extracted)) as [ex' | e] eqn:Hp'.
  - rewrite (pages_loop_cons_Ok _ _ _ _ _ Hp').
    destruct Hin as [-> | Hin]; [ | exact (IH Hin _ _) ].
    destruct (process_page_not_readable page_num p extracted Hp) as (e & He).
    rewrite He in Hp'. discriminate Hp'.
  - exists e. exact (pages_loop_cons_Raise _ _ _ _ _ Hp').
Qed.

Lemma extract_tables_from_pdf_aborts_witness :
  In (mk_page [] [mk_token (Some "b"%string) (Some 2) None (Some 5)])
     [mk_page [[[Some "a"%string]]] [];
      mk_page [] [mk_token (Some "b"%string) (Some 2) None (Some 5)]] /\
  ~ readable (mk_page [] [mk_token (Some "b"%string) (Some 2) None (Some 5)]) /\
  exists e,
    snd (extract_tables_from_pdf
           [mk_page [[[Some "a"%string]]] [];
            mk_page [] [mk_token (Some "b"%string) (Some 2) None (Some 5)]])
    = Raise e.
Proof.
  assert (H : ~ readable (mk_page [] [mk_token (Some "b"%string) (Some 2) None (Some 5)])).
  { intros [H | H]; [ apply H; reflexivity | ].
    inversion H as [ | ? ? (_ & _ & Hx1 & _) _ ]; subst. apply Hx1. reflexivity. }
  split; [ right; left; reflexivity | ]. split; [ exact H | ].
  apply (extract_tables_from_pdf_aborts
           [mk_page [[[Some "a"%string]]] [];
            mk_page [] [mk_token (Some "b"%string) (Some 2) None (Some 5)]]
           (mk_page [] [mk_token (Some "b"%string) (Some 2) None (Some 5)])).
  - right; left; reflexivity.
  - exact H.
Defined.

(** A page with bordered tables is never looked at further: when every
    page has one, the run only calls [extract_tables], once per page, reads
    no word, and returns the bordered tables that have a cell other than
    [None], whatever the words of the pages are. *)
Theorem bordered_pages_skip_the_words (pages : list page) :
  Forall (fun p => extract_tables p <> []) pages ->
  extract_tables_from_pdf pages
  = (repeat (Call "extract_tables") (List.length pages),
     Ok (flat_map (fun p => filter any_row_with_value (extract_tables p)) pages)).
Proof.
  intros H. unfold extract_tables_from_pdf.
  change (flat_map (fun p => filter any_row_with_value (extract_tables p)) pages)
    with ([] ++ flat_map (fun p => filter any_row_with_value (extract_tables p)) pages).
  generalize (@nil table) as extracted. generalize 1%nat as page_num.
  induction H as [ | p rest Hp _ IH ]; intros page_num extracted.
  - simpl. rewrite app_nil_r. reflexivity.
  - simpl. unfold process_page.
    destruct (extract_tables p) as [ | t ts ] eqn:Htables; [ contradiction | ].
    cbn [list_truthy]. rewrite IH. simpl. rewrite <- app_assoc. reflexivity.
Qed.

Lemma bordered_pages_skip_the_words_witness :
  Forall (fun p => extract_tables p <> [])
         [mk_page [[[Some "a"%string; None]]; [[None]]] [mk_token None None None None]] /\
  extract_tables_from_pdf
    [mk_page [[[Some "a"%string; None]]; [[None]]] [mk_token None None None None]]
  = ([Call "extract_tables"], Ok [[[Some "a"%string; None]]]).
Proof.
  assert (H : Forall (fun p => extract_tables p <> [])
         [mk_page [[[Some "a"%string; None]]; [[None]]] [mk_token None None None None]]).
  { repeat constructor. discriminate. }
  split; [ exact H | ].
  apply (bordered_pages_skip_the_words _ H).
Defined.


(** ** export_tables_to_excel *)

Lemma of_nat_injective (a b : nat) : PyStr.of_nat a = PyStr.of_nat b -> a = b.
Proof.
  unfold PyStr.of_nat. intros H.
  apply DecimalNat.Unsigned.to_uint_inj.
  pose proof (NilEmpty.usu (Nat.to_uint a)) as Ha.
  rewrite H, NilEmpty.usu in Ha. injection Ha as Ha. symmetry. exact Ha.
Qed.

Lemma sheet_name_of_injective (a b : nat) : sheet_name_of a = sheet_name_of b -> a = b.
Proof.
  unfold sheet_name_of. simpl. intros H. injection H as H.
  apply of_nat_injective in H. apply Nat.add_cancel_r in H. exact H.
Qed.

Lemma sheets_written_sheets_from (tables : list table) :
  forall idx,
    sheets_written (sheets_from idx tables)
    = combine (map sheet_name_of (seq idx (List.length tables))) tables.
Proof.
  induction tables as [ | t rest IH ]; simpl; intros idx.
  - reflexivity.
  - unfold sheets_written in *. simpl. rewrite IH. reflexivity.
Qed.

Lemma sheets_written_export (tables : list table) (excel_path : string) :
  sheets_written (export_tables_to_excel tables excel_path)
  = combine (map sheet_name_of (seq 0 (List.length tables))) tables.
Proof.
  unfold export_tables_to_excel, sheets_written. simpl.
  rewrite flat_map_app. simpl. rewrite app_nil_r.
  apply sheets_written_sheets_from.
Qed.

(** The export writes every table once, in the order of the list, each to
    a sheet of its own: the k-th table goes to the sheet "Table_k",
    counting from 1, and no two sheets have the same name. *)
Theorem export_one_sheet_per_table (tables : list table) (excel_path : string) :
  map snd (sheets_written (export_tables_to_excel tables excel_path)) = tables /\
  map fst (sheets_written (export_tables_to_excel tables excel_path))
  = map (fun k => ("Table_" ++ PyStr.of_nat k)%string) (seq 1 (List.length tables)) /\
  NoDup (map fst (sheets_written (export_tables_to_excel tables excel_path))) /\
  writers_opened (export_tables_to_excel tables excel_path) = [excel_path].
Proof.
  rewrite sheets_written_export.
  assert (Hlen : List.length (map sheet_name_of (seq 0 (List.length tables)))
                 = List.length tables).
  { rewrite length_map, length_seq. reflexivity. }
  assert (Hfst : map fst (combine (map sheet_name_of (seq 0 (List.length tables))) tables)
                 = map sheet_name_of (seq 0 (List.length tables))).
  { revert Hlen. generalize (map sheet_name_of (seq 0 (List.length tables))).
    clear. induction tables as [ | t rest IH ]; intros [ | n names ] H;
      try discriminate H; simpl; [ reflexivity | ].
    rewrite IH; [ reflexivity | ]. simpl in H. injection H as H. exact H. }
  split; [ | split; [ | split ] ].
  - revert Hlen. generalize (map sheet_name_of (seq 0 (List.length tables))).
    clear. induction tables as [ | t rest IH ]; intros [ | n names ] H;
      try discriminate H; simpl; [ reflexivity | ].
    rewrite IH; [ reflexivity | ]. simpl in H. injection H as H. exact H.
  - rewrite Hfst, <- seq_shift, map_map. apply map_ext. intros k.
    unfold sheet_name_of. rewrite Nat.add_1_r. reflexivity.
  - rewrite Hfst. apply Injective_map_NoDup; [ | apply seq_NoDup ].
    intros a b. apply sheet_name_of_injective.
  - unfold export_tables_to_excel, writers_opened. simpl.
    rewrite flat_map_app. simpl. rewrite app_nil_r.
    generalize 0%nat. clear. induction tables as [ | t rest IH ]; intros idx; simpl;
      [ reflexivity | ].
    specialize (IH (S idx)). injection IH as IH. rewrite IH. reflexivity.
Qed.

(** ** main *)

Lemma sheets_written_before (line : string) (tr : list event) (rest : list action) :
  sheets_written ((Say line :: map Extraction tr) ++ rest) = sheets_written rest.
Proof.
  unfold sheets_written. rewrite flat_map_app. simpl.
  induction tr as [ | e tr IH ]; simpl; [ reflexivity | exact IH ].
Qed.

Lemma writers_opened_before (line : string) (tr : list event) (rest : list action) :
  writers_opened ((Say line :: map Extraction tr) ++ rest) = writers_opened rest.
Proof.
  unfold writers_opened. rewrite flat_map_app. simpl.
  induction tr as [ | e tr IH ]; simpl; [ reflexivity | exact IH ].
Qed.

Lemma writers_opened_export (tables : list table) (excel_path : string) :
  writers_opened (export_tables_to_excel tables excel_path) = [excel_path].
Proof.
  unfold export_tables_to_excel, writers_opened. simpl.
  rewrite flat_map_app. simpl. rewrite app_nil_r.
  generalize 0%nat. induction tables as [ | t rest IH ]; intros idx; simpl;
    [ reflexivity | ].
  specialize (IH (S idx)). injection IH as IH. rewrite IH. reflexivity.
Qed.

Lemma map_snd_combine {A B : Type} (l : list B) :
  forall names : list A,
    List.length names = List.length l -> map snd (combine names l) = l.
Proof.
  induction l as [ | x l IH ]; intros [ | n names ] H;
    try discriminate H; simpl; [ reflexivity | ].
  rewrite IH; [ reflexivity | ]. simpl in H. injection H as H. exact H.
Qed.

Section MainFacts.
Variable file_exists : string -> bool.
Variable pdf_pages : string -> list page.
Variable splitext_root : string -> string.

(** What [main] does once the file is known to exist. *)
Lemma main_existing_file (prog pdf_path : string) (more : list string) :
  file_exists pdf_path = true ->
  main file_exists pdf_pages splitext_root (prog :: pdf_path :: more)
  = match snd (extract_tables_from_pdf (pdf_pages pdf_path)) with
    | Raise e =>
        (Say ("Processing PDF: " ++ pdf_path)%string
         :: map Extraction (fst (extract_tables_from_pdf (pdf_pages pdf_path))),
         Raised e)
    | Ok [] =>
        ((Say ("Processing PDF: " ++ pdf_path)%string
          :: map Extraction (fst (extract_tables_from_pdf (pdf_pages pdf_path))))
         ++ [Say "No tables detected in the PDF."],
         Exited 0)
    | Ok (t :: ts) =>
        ((Say ("Processing PDF: " ++ pdf_path)%string
          :: map Extraction (fst (extract_tables_from_pdf (pdf_pages pdf_path))))
         ++ export_tables_to_excel (t :: ts)
              (splitext_root pdf_path ++ "_tables.xlsx")%string,
         Returned)
    end.
Proof.
  intros Hex. unfold main. rewrite Hex. cbn [negb].
  destruct (extract_tables_from_pdf (pdf_pages pdf_path)) as [tr [[ | t ts] | e]];
    reflexivity.
Qed.

(** [main] ends with status 1 exactly when it is given no path or the path
    of a file that does not exist; it has then printed one line and done
    nothing else: no PDF was opened and no workbook written. *)
Theorem main_exit_status_1 (argv : list string) :
  (snd (main file_exists pdf_pages splitext_root argv) = Exited 1 <->
   nth_error argv 1 = None \/
   exists pdf_path, nth_error argv 1 = Some pdf_path /\ file_exists pdf_path = false) /\
  (snd (main file_exists pdf_pages splitext_root argv) = Exited 1 -> exists line, fst (main file_exists pdf_pages splitext_root argv) = [Say line]).
Proof.
  destruct argv as [ | prog [ | pdf_path more ] ].
  - split; [ | intros _; eexists; reflexivity ].
    split; [ intros _; left; reflexivity | reflexivity ].
  - split; [ | intros _; eexists; reflexivity ].
    split; [ intros _; left; reflexivity | reflexivity ].
  - destruct (file_exists pdf_path) eqn:Hex.
    + rewrite (main_existing_file prog pdf_path more Hex).
      assert (Hno : ~ (nth_error (prog :: pdf_path :: more) 1 = None \/
                       exists f, nth_error (prog :: pdf_path :: more) 1 = Some f /\
                                 file_exists f = false)).
      { intros [H | (f & Hf & Hnone)]; [ discriminate H | ].
        simpl in Hf. injection Hf as <-. congruence. }
      destruct (snd (extract_tables_from_pdf (pdf_pages pdf_path))) as [[ | t ts] | e];
        cbn [fst snd];
        (split; [ split; [ discriminate | intros H; destruct (Hno H) ] | discriminate ]).
    + unfold main. rewrite Hex. cbn [negb fst snd].
      split; [ | intros _; eexists; reflexivity ].
      split; [ intros _ | reflexivity ].
      right. exists pdf_path. split; [ reflexivity | exact Hex ].
Qed.

(** On an existing file whose extraction returns, [main] writes a workbook
    exactly when a table was extracted.  Without tables it ends with status
    0 and opens no workbook.  With tables it returns after writing one
    workbook, named by the root of the path of the PDF followed by
    "_tables.xlsx", whose sheets are the extracted tables in order, each of
    them with a cell other than [None]. *)
Theorem main_exports_extracted_tables (prog pdf_path : string) (more : list string)
        (tables : list table) :
  file_exists pdf_path = true ->
  snd (extract_tables_from_pdf (pdf_pages pdf_path)) = Ok tables ->
  (tables = [] ->
   snd (main file_exists pdf_pages splitext_root (prog :: pdf_path :: more)) = Exited 0 /\
   writers_opened (fst (main file_exists pdf_pages splitext_root (prog :: pdf_path :: more))) = [] /\
   sheets_written (fst (main file_exists pdf_pages splitext_root (prog :: pdf_path :: more))) = []) /\
  (tables <> [] ->
   snd (main file_exists pdf_pages splitext_root (prog :: pdf_path :: more)) = Returned /\
   writers_opened (fst (main file_exists pdf_pages splitext_root (prog :: pdf_path :: more)))
   = [(splitext_root pdf_path ++ "_tables.xlsx")%string] /\
   map snd (sheets_written (fst (main file_exists pdf_pages splitext_root (prog :: pdf_path :: more)))) = tables /\
   Forall (fun t => exists row s, In row t /\ In (Some s) row) tables).
Proof.
  intros Hex Hrun. rewrite (main_existing_file prog pdf_path more Hex), Hrun.
  destruct tables as [ | t ts ]; cbn [fst snd].
  - split; [ intros _ | intros H; contradiction ].
    rewrite writers_opened_before, sheets_written_before.
    repeat split.
  - split; [ discriminate | intros _ ].
    rewrite writers_opened_before, sheets_written_before,
      writers_opened_export, sheets_written_export.
    split; [ reflexivity | ]. split; [ reflexivity | ].
    split.
    + apply map_snd_combine. rewrite length_map, length_seq. reflexivity.
    + apply extract_tables_from_pdf_usable in Hrun.
      eapply Forall_impl; [ | exact Hrun ].
      intros t' Ht'. apply any_row_with_value_iff. exact Ht'.
Qed.

(** An exception of the extraction goes through [main]: nothing is
    exported and no exit status is set. *)
Lemma main_raises (prog pdf_path : string) (more : list string) (e : exn) :
  file_exists pdf_path = true ->
  snd (extract_tables_from_pdf (pdf_pages pdf_path)) = Raise e ->
  snd (main file_exists pdf_pages splitext_root (prog :: pdf_path :: more)) = Raised e /\
  writers_opened (fst (main file_exists pdf_pages splitext_root (prog :: pdf_path :: more))) = [].
Proof.
  intros Hex Hrun. rewrite (main_existing_file prog pdf_path more Hex), Hrun.
  cbn [fst snd]. split; [ reflexivity | ].
  rewrite <- (app_nil_r (_ :: _)). rewrite writers_opened_before. reflexivity.
Qed.

End MainFacts.

Lemma main_exports_extracted_tables_witness :
  (fun _ : string => true) "doc.pdf"%string = true /\
  snd (extract_tables_from_pdf
         ((fun _ : string => [mk_page [] [word "Name" 0 30 100]]) "doc.pdf"%string))
  = Ok [[[Some "Name"%string]]] /\
  snd (main (fun _ => true) (fun _ => [mk_page [] [word "Name" 0 30 100]])
            (fun _ => "doc"%string) ["prog"; "doc.pdf"]%string)
  = Returned /\
  sheets_written
    (fst (main (fun _ => true) (fun _ => [mk_page [] [word "Name" 0 30 100]])
               (fun _ => "doc"%string) ["prog"; "doc.pdf"]%string))
  = [("Table_1"%string, [[Some "Name"%string]])].
Proof.
  split; [ reflexivity | ]. split; [ vm_compute; reflexivity | ].
  pose proof (main_exports_extracted_tables
                (fun _ => true) (fun _ => [mk_page [] [word "Name" 0 30 100]])
                (fun _ => "doc"%string) "prog"%string "doc.pdf"%string []
                [[[Some "Name"%string]]] eq_refl) as H.
  split; [ | vm_compute; reflexivity ].
  apply H; [ vm_compute; reflexivity | discriminate ].
Defined.


(** ** Empty cells *)

Lemma all_space_append (a b : string) :
  all_space (a ++ b) = all_space a && all_space b.
Proof.
  unfold all_space. induction a as [ | c a IH ]; simpl; [ reflexivity | ].
  rewrite IH, andb_assoc. reflexivity.
Qed.

Lemma lstrip_all_space (s : string) : all_space (PyStr.lstrip s) = all_space s.
Proof.
  unfold all_space. induction s as [ | c s IH ]; simpl; [ reflexivity | ].
  destruct (PyStr.isspace c) eqn:Hc; [ exact IH | ].
  simpl. rewrite Hc. reflexivity.
Qed.

Lemma rstrip_empty_iff (s : string) :
  PyStr.rstrip s = EmptyString <-> all_space s = true.
Proof.
  unfold all_space. induction s as [ | c s IH ]; simpl.
  - split; reflexivity.
  - destruct (PyStr.rstrip s) as [ | d r ].
    + destruct (PyStr.isspace c); simpl.
      * split; [ intros _; apply IH; reflexivity | reflexivity ].
      * split; discriminate.
    + split; [ discriminate | ].
      intros H. apply andb_true_iff in H as [_ H]. apply IH in H. discriminate H.
Qed.

Lemma strip_empty_iff (s : string) :
  PyStr.strip s = EmptyString <-> all_space s = true.
Proof.
  unfold PyStr.strip. rewrite rstrip_empty_iff, lstrip_all_space. reflexivity.
Qed.

Lemma cell_buffer_all_space (g : list token) :
  all_space (cell_buffer g) = forallb (fun w => all_space (text_of w)) g.
Proof.
  induction g as [ | w g IH ] using rev_ind.
  - reflexivity.
  - rewrite cell_buffer_app, forallb_app, !all_space_append, IH. simpl.
    change (all_space " ") with true. rewrite !andb_true_r. reflexivity.
Qed.

(** A cell is the empty string exactly when the texts of all its words are
    empty or made of whitespace only; such a cell is kept in its row, it is
    not dropped. *)
Theorem empty_cell_iff_blank_words (row : list token) :
  Forall complete row ->
  exists cells,
    build_row row = Ok cells /\
    Forall2 (fun g c => c = EmptyString <->
                        Forall (fun w => all_space (text_of w) = true) g)
            (cell_groups row) cells.
Proof.
  intros Hrow. exists (map cell_text (cell_groups row)).
  split; [ apply build_row_cells; exact Hrow | ].
  induction (cell_groups row) as [ | g gs IH ]; simpl; constructor; [ | exact IH ].
  unfold cell_text. rewrite strip_empty_iff, cell_buffer_all_space, forallb_forall.
  rewrite Forall_forall. reflexivity.
Qed.

Lemma empty_cell_iff_blank_words_witness :
  Forall complete [word " " 0 5 100; word "" 6 9 100; word "x" 40 50 100] /\
  exists cells,
    build_row [word " " 0 5 100; word "" 6 9 100; word "x" 40 50 100] = Ok cells /\
    Forall2 (fun g c => c = EmptyString <->
                        Forall (fun w => all_space (text_of w) = true) g)
            (cell_groups [word " " 0 5 100; word "" 6 9 100; word "x" 40 50 100])
            cells.
Proof.
  assert (H : Forall complete [word " " 0 5 100; word "" 6 9 100; word "x" 40 50 100]).
  { repeat constructor; discriminate. }
  split; [ exact H | ].
  apply (empty_cell_iff_blank_words _ H).
Defined.

(** ** The pages reported as without table *)

Lemma append_dot_injective (a b : string) :
  (a ++ ".")%string = (b ++ ".")%string -> a = b.
Proof.
  revert b. induction a as [ | c a IH ]; intros [ | d b ] H; simpl in H.
  - reflexivity.
  - injection H as _ H. destruct b; discriminate H.
  - injection H as _ H. destruct a; discriminate H.
  - injection H as -> H. rewrite (IH b H). reflexivity.
Qed.

Lemma no_table_message_injective (a b : nat) :
  no_table_message a = no_table_message b -> a = b.
Proof.
  unfold no_table_message. intros H.
  apply of_nat_injective, append_dot_injective.
  simpl in H. injection H as H. exact H.
Qed.

Lemma group_text_into_rows_nil_iff (text_objs : list token) (tolerance : Z) :
  group_text_into_rows text_objs tolerance = Ok [] -> text_objs = [].
Proof.
  intros H. apply group_text_into_rows_Permutation in H.
  simpl in H. apply Permutation_nil in H. exact H.
Qed.

Lemma process_page_prints (page_num : nat) (p : page) (extracted extracted' : list table)
      (line : string) :
  snd (process_page page_num p extracted) = Ok extracted' ->
  (In (Print line) (fst (process_page page_num p extracted)) <->
   line = no_table_message page_num /\ blank_page p).
Proof.
  unfold process_page, blank_page.
  destruct (extract_tables p) as [ | t ts ]; cbn [list_truthy].
  - destruct (group_text_into_rows (extract_words p) default_tolerance)
      as [[ | r rows] | e] eqn:Hrows; cbn [list_truthy fst snd].
    + intros _. apply group_text_into_rows_nil_iff in Hrows. rewrite Hrows. simpl.
      split.
      * intros [H | [H | [H | [H | []]]]]; try discriminate H.
        injection H as <-. repeat split.
      * intros [-> _]. right; right; right; left. reflexivity.
    + destruct (build_table_from_rows (r :: rows)); cbn [fst snd]; intros H;
        [ | discriminate H ].
      split.
      * intros [Hp | [Hp | [Hp | [Hp | []]]]]; discriminate Hp.
      * intros [_ [_ Hw]]. rewrite Hw in Hrows. discriminate Hrows.
    + discriminate.
  - cbn [fst snd]. intros _. split.
    + intros [H | []]. discriminate H.
    + intros [_ [H _]]. discriminate H.
Qed.

Lemma pages_loop_prints (pages : list page) :
  forall page_num extracted tables line,
    snd (pages_loop page_num pages extracted) = Ok tables ->
    (In (Print line) (fst (pages_loop page_num pages extracted)) <->
     exists i p, nth_error pages i = Some p /\ blank_page p /\
                 line = no_table_message (page_num + i)).
Proof.
  induction pages as [ | p rest IH ]; intros page_num extracted tables line H.
  - simpl. split; [ intros [] | intros (i & q & Hq & _) ].
    destruct i; discriminate Hq.
  - destruct (snd (process_page page_num p extracted)) as [ex' | e] eqn:Hp;
      [ | rewrite (pages_loop_cons_Raise _ _ _ _ _ Hp) in H; discriminate H ].
    rewrite (pages_loop_cons_Ok _ _ _ _ _ Hp) in H.
    pose proof (process_page_prints page_num p extracted ex' line Hp) as Hhere.
    specialize (IH (S page_num) ex' tables line H).
    simpl. destruct (process_page page_num p extracted) as [tr r].
    simpl in Hp. subst r. cbn [fst] in Hhere.
    destruct (pages_loop (S page_num) rest ex') as [tr' r']. cbn [fst] in IH |- *.
    rewrite in_app_iff, Hhere, IH. split.
    + intros [[-> Hb] | (i & q & Hq & Hb & ->)].
      * exists 0%nat, p. rewrite Nat.add_0_r. repeat split; try reflexivity; apply Hb.
      * exists (S i), q. rewrite Nat.add_succ_r. repeat split; try assumption; apply Hb.
    + intros (i & q & Hq & Hb & ->). destruct i as [ | i ].
      * left. simpl in Hq. injection Hq as <-. rewrite Nat.add_0_r. split; [ reflexivity | exact Hb ].
      * right. exists i, q. rewrite Nat.add_succ_r. repeat split; try assumption; apply Hb.
Qed.

(** In a run that returns, "No table detected on page k." is printed for
    exactly the pages that have neither a bordered table nor a word, with
    [k] the number of the page counted from 1; nothing else is printed. *)
Theorem no_table_message_pages (pages : list page) (tables : list table) :
  snd (extract_tables_from_pdf pages) = Ok tables ->
  (forall line,
      In (Print line) (fst (extract_tables_from_pdf pages)) ->
      exists k, line = no_table_message k) /\
  (forall k,
      In (Print (no_table_message k)) (fst (extract_tables_from_pdf pages)) <->
      exists i p, k = S i /\ nth_error pages i = Some p /\ blank_page p).
Proof.
  intros H. unfold extract_tables_from_pdf in *. split.
  - intros line Hin. apply (pages_loop_prints _ _ _ _ line H) in Hin.
    destruct Hin as (i & p & _ & _ & ->). eexists. reflexivity.
  - intros k. rewrite (pages_loop_prints _ _ _ _ (no_table_message k) H). split.
    + intros (i & p & Hp & Hb & Hk). apply no_table_message_injective in Hk.
      exists i, p. repeat split; try assumption; apply Hb.
    + intros (i & p & -> & Hp & Hb). exists i, p. repeat split; try assumption; apply Hb.
Qed.

Lemma no_table_message_pages_witness :
  snd (extract_tables_from_pdf
         [mk_page [[[Some "a"%string]]] []; mk_page [] []; mk_page [] [word "x" 0 1 2]])
  = Ok [[[Some "a"%string]]; [[Some "x"%string]]] /\
  (In (Print (no_table_message 2))
      (fst (extract_tables_from_pdf
              [mk_page [[[Some "a"%string]]] []; mk_page [] [];
               mk_page [] [word "x" 0 1 2]])) <->
   exists i p, 2%nat = S i /\
               nth_error [mk_page [[[Some "a"%string]]] []; mk_page [] [];
                          mk_page [] [word "x" 0 1 2]] i = Some p /\
               blank_page p).
Proof.
  split; [ vm_compute; reflexivity | ].
  apply (no_table_message_pages
           [mk_page [[[Some "a"%string]]] []; mk_page [] []; mk_page [] [word "x" 0 1 2]]
           [[[Some "a"%string]]; [[Some "x"%string]]]).
  vm_compute. reflexivity.
Defined.
